(** * Orbit configuration dictionaries: [omni/isaac/orbit/utils/dict.py]

    A shallow embedding of [class_to_dict], [update_class_from_dict],
    [update_dict] and [_string_to_callable], and the properties of the
    configuration reconciliation subsystem proved about them; then
    [print_dict] of the same module and the [Timer] of
    [omni/isaac/orbit/utils/timer.py].

    Python values that are mutable and shared (dictionaries and class
    instances) live in a store and are handled through references, so that
    in-place mutation and aliasing are visible.  Exceptions are results that
    keep the store reached when they were raised. *)

From Stdlib Require Import ZArith String Ascii Lia.
From stdpp Require Import base relations list strings.

Local Open Scope string_scope.
Local Open Scope list_scope.
Set Warnings "-register-all".

(** ** Values *)

Abbreviation loc := nat (only parsing).

(** Python values.  Lists and tuples are never mutated by the module, it only
    measures and stores them, so they are kept inline; dictionaries and class
    instances are references into the store.  [VFunc m n] is a named
    module-level invocable (a function or a class) with [__module__ = m] and
    [__name__ = n].  A float is carried by its bit pattern: only its type is
    ever inspected.  A reference to a location the store does not have
    stands for a bare [object()]: it has no attribute dictionary, no length
    and no items, and is not invocable. *)
Inductive pyval : Type :=
| VNone
| VBool (b : bool)
| VInt (z : Z)
| VFloat (bits : Z)
| VStr (s : string)
| VList (xs : list pyval)
| VTuple (xs : list pyval)
| VFunc (module_ name_ : string)
| VRef (l : loc).

(** A user class: its name, the names of its proper ancestors, and whether it
    defines [__call__]. *)
Record pyclass : Type := PyClass {
  cls_name : string;
  cls_bases : list string;
  cls_call : bool
}.

(** Objects of the store.  A dictionary keeps its items in insertion order;
    keys are strings, as in the mappings the module exchanges.  An instance
    carries its class and its [__dict__]. *)
Inductive hobj : Type :=
| HDict (items : list (string * pyval))
| HInst (cls : pyclass) (attrs : list (string * pyval)).

Abbreviation heap := (list hobj) (only parsing).

Inductive pytype : Type :=
| TObject | TNoneType | TBool | TInt | TFloat | TStr | TList | TTuple
| TFunction | TModule | TDict | TClass (name : string).

(** ** Exceptions *)

(** The text of an exception, with the values the source formats into it. *)
Inductive message : Type :=
| MsgExpectedInstance (received : pytype)
    (* "Expected a class instance. Received: {type(obj)}." *)
| MsgIncorrectLength (key_ns : string) (expected received : nat)
    (* "[Config]: Incorrect length under namespace: ..." *)
| MsgIncorrectType (key_ns : string) (expected received : pytype)
    (* "[Config]: Incorrect type under namespace: ..." *)
| MsgKeyNotFound (key_ns : string)
    (* "[Config]: Key not found under namespace: ..." *)
| MsgNotCallable (name : string)
    (* "The imported object is not callable: '{name}'" *)
| MsgNotInterpreted (name : pyval) (cause : message)
    (* "While updating the config from a dictionary, we could not interpret
       the entry as a callable object. ..." *)
| MsgUnpack (expected got : nat)
    (* interpreter: not enough / too many values to unpack *)
| MsgNoAttribute (t : pytype) (attr : string)
    (* interpreter: '{t}' object has no attribute '{attr}' *)
| MsgNoItem (t : pytype)
    (* interpreter: '{t}' object is not subscriptable / does not support
       item assignment *)
| MsgNoLen (t : pytype)
    (* interpreter: object of type '{t}' has no len() *)
| MsgMissing (key : string)
    (* interpreter: dictionary lookup of an absent key *)
| MsgImport (name : string)
    (* importlib: No module named '{name}' *)
| MsgEmptyModuleName
    (* importlib: Empty module name *)
| MsgRelativeImport (name : string).
    (* importlib: the 'package' argument is required to perform a relative
       import for '{name}' *)

Inductive exn : Type :=
| ValueError (m : message)
| KeyError (m : message)
| TypeError (m : message)
| AttributeError (m : message)
| ModuleNotFoundError (m : message)
| RecursionError.

(** ** The store and exception monad *)

Inductive outcome (A : Type) : Type :=
| Ok (a : A) (h : heap)
| Raise (e : exn) (h : heap).
Arguments Ok {A} a h.
Arguments Raise {A} e h.

Definition M (A : Type) : Type := heap -> outcome A.

Definition ret {A} (a : A) : M A := fun h => Ok a h.

Definition bind {A B} (m : M A) (k : A -> M B) : M B :=
  fun h => match m h with
           | Ok a h' => k a h'
           | Raise e h' => Raise e h'
           end.

Definition raise {A} (e : exn) : M A := fun h => Raise e h.

Definition get_heap : M heap := fun h => Ok h h.

Notation "x <- m ;; k" := (bind m (fun x => k))
  (at level 100, m at next level, right associativity).
Notation "m ;;; k" := (bind m (fun _ => k))
  (at level 100, right associativity).

(** [for x in xs: body].  The items of a mapping are read when its loop
    starts; no loop of the module adds a key to, or removes one from, the
    mapping it iterates. *)
Fixpoint for_each {A} (xs : list A) (body : A -> M unit) : M unit :=
  match xs with
  | [] => ret tt
  | x :: xs' => body x ;;; for_each xs' body
  end.

(** [try: m except AttributeError as e: handler e] *)
Definition try_except_AttributeError {A} (m : M A) (handler : message -> M A)
  : M A :=
  fun h => match m h with
           | Raise (AttributeError e) h' => handler e h'
           | r => r
           end.

(** The final store of a computation, whether it returned or raised. *)
Definition final_heap {A} (r : outcome A) : heap :=
  match r with Ok _ h => h | Raise _ h => h end.

(** ** Insertion-ordered dictionaries *)

Fixpoint assoc_get (k : string) (d : list (string * pyval)) : option pyval :=
  match d with
  | [] => None
  | (k', v) :: d' => if String.eqb k k' then Some v else assoc_get k d'
  end.

(** [d[k] = v]: an existing key keeps its position, a new one is appended. *)
Fixpoint assoc_set (k : string) (v : pyval) (d : list (string * pyval))
  : list (string * pyval) :=
  match d with
  | [] => [(k, v)]
  | (k', v') :: d' =>
      if String.eqb k k' then (k, v) :: d' else (k', v') :: assoc_set k v d'
  end.

Definition keys (d : list (string * pyval)) : list string := map fst d.

(** ** Built-in operations *)

Definition type_of (h : heap) (v : pyval) : pytype :=
  match v with
  | VNone => TNoneType
  | VBool _ => TBool
  | VInt _ => TInt
  | VFloat _ => TFloat
  | VStr _ => TStr
  | VList _ => TList
  | VTuple _ => TTuple
  | VFunc _ _ => TFunction
  | VRef l => match h !! l with
              | Some (HDict _) => TDict
              | Some (HInst c _) => TClass (cls_name c)
              | None => TObject   (* a bare [object()] *)
              end
  end.

Definition pytype_eqb (a b : pytype) : bool :=
  match a, b with
  | TObject, TObject | TNoneType, TNoneType | TBool, TBool | TInt, TInt
  | TFloat, TFloat | TStr, TStr | TList, TList | TTuple, TTuple
  | TFunction, TFunction | TModule, TModule | TDict, TDict => true
  | TClass x, TClass y => String.eqb x y
  | _, _ => false
  end.

(** The proper ancestors of the type of a value, [object] apart: [bool] is a
    subclass of [int], a user class has its declared bases. *)
Definition bases_of (h : heap) (v : pyval) : list pytype :=
  match v with
  | VBool _ => [TInt]
  | VRef l => match h !! l with
              | Some (HInst c _) => map TClass (cls_bases c)
              | _ => []
              end
  | _ => []
  end.

(** [isinstance(v, t)] for a type [t] *)
Definition isinstance (h : heap) (v : pyval) (t : pytype) : bool :=
  pytype_eqb t TObject
  || pytype_eqb t (type_of h v)
  || existsb (pytype_eqb t) (bases_of h v).

(** [callable(v)] *)
Definition callable (h : heap) (v : pyval) : bool :=
  match v with
  | VFunc _ _ => true
  | VRef l => match h !! l with
              | Some (HInst c _) => cls_call c
              | _ => false
              end
  | _ => false
  end.

(** [isinstance(v, dict)], [isinstance(v, Mapping)] *)
Definition is_mapping (h : heap) (v : pyval) : bool :=
  match v with
  | VRef l => match h !! l with Some (HDict _) => true | _ => false end
  | _ => false
  end.

(** [isinstance(v, Iterable)] *)
Definition is_iterable (h : heap) (v : pyval) : bool :=
  match v with
  | VStr _ | VList _ | VTuple _ => true
  | _ => is_mapping h v
  end.

(** [isinstance(v, str)] *)
Definition is_str (v : pyval) : bool :=
  match v with VStr _ => true | _ => false end.

(** [hasattr(v, "__dict__")]: class instances and functions. *)
Definition has_dict (h : heap) (v : pyval) : bool :=
  match v with
  | VFunc _ _ => true
  | VRef l => match h !! l with Some (HInst _ _) => true | _ => false end
  | _ => false
  end.

(** [hasattr(obj, key)], for the entries of an instance's [__dict__].
    Attributes that a class or a built-in type provides (methods, [__doc__]
    and the like) are outside the model. *)
Definition hasattr (h : heap) (obj : pyval) (key : string) : bool :=
  match obj with
  | VRef l => match h !! l with
              | Some (HInst _ attrs) =>
                  match assoc_get key attrs with Some _ => true | None => false end
              | _ => false
              end
  | _ => false
  end.

(** [getattr(obj, key)] *)
Definition getattr (obj : pyval) (key : string) : M pyval :=
  fun h =>
    match obj with
    | VRef l => match h !! l with
                | Some (HInst _ attrs) =>
                    match assoc_get key attrs with
                    | Some v => Ok v h
                    | None => Raise (AttributeError (MsgNoAttribute (type_of h obj) key)) h
                    end
                | _ => Raise (AttributeError (MsgNoAttribute (type_of h obj) key)) h
                end
    | _ => Raise (AttributeError (MsgNoAttribute (type_of h obj) key)) h
    end.

(** [setattr(obj, key, v)] *)
Definition setattr (obj : pyval) (key : string) (v : pyval) : M unit :=
  fun h =>
    match obj with
    | VRef l => match h !! l with
                | Some (HInst c attrs) =>
                    Ok tt (<[l := HInst c (assoc_set key v attrs)]> h)
                | _ => Raise (AttributeError (MsgNoAttribute (type_of h obj) key)) h
                end
    | _ => Raise (AttributeError (MsgNoAttribute (type_of h obj) key)) h
    end.

(** [obj.__dict__.items()], the entries of an object's attribute dictionary.
    A function has an attribute dictionary, taken to be empty. *)
Definition dunder_dict_items (obj : pyval) : M (list (string * pyval)) :=
  fun h =>
    match obj with
    | VFunc _ _ => Ok [] h
    | VRef l => match h !! l with
                | Some (HInst _ attrs) => Ok attrs h
                | _ => Raise (AttributeError (MsgNoAttribute (type_of h obj) "__dict__")) h
                end
    | _ => Raise (AttributeError (MsgNoAttribute (type_of h obj) "__dict__")) h
    end.

(** [d.items()] *)
Definition dict_items (d : pyval) : M (list (string * pyval)) :=
  fun h =>
    match d with
    | VRef l => match h !! l with
                | Some (HDict items) => Ok items h
                | _ => Raise (AttributeError (MsgNoAttribute (type_of h d) "items")) h
                end
    | _ => Raise (AttributeError (MsgNoAttribute (type_of h d) "items")) h
    end.

(** [dict()], [{}]: a new empty dictionary *)
Definition dict_new : M pyval :=
  fun h => Ok (VRef (length h)) (h ++ [HDict []]).

(** [d[k]] *)
Definition getitem (d : pyval) (k : string) : M pyval :=
  fun h =>
    match d with
    | VRef l => match h !! l with
                | Some (HDict items) =>
                    match assoc_get k items with
                    | Some v => Ok v h
                    | None => Raise (KeyError (MsgMissing k)) h
                    end
                | _ => Raise (TypeError (MsgNoItem (type_of h d))) h
                end
    | _ => Raise (TypeError (MsgNoItem (type_of h d))) h
    end.

(** [d[k] = v] *)
Definition setitem (d : pyval) (k : string) (v : pyval) : M unit :=
  fun h =>
    match d with
    | VRef l => match h !! l with
                | Some (HDict items) => Ok tt (<[l := HDict (assoc_set k v items)]> h)
                | _ => Raise (TypeError (MsgNoItem (type_of h d))) h
                end
    | _ => Raise (TypeError (MsgNoItem (type_of h d))) h
    end.

(** [d.get]: looking up the method, which a dictionary has *)
Definition dict_get_method (d : pyval) : M unit :=
  fun h =>
    match d with
    | VRef l => match h !! l with
                | Some (HDict _) => Ok tt h
                | _ => Raise (AttributeError (MsgNoAttribute (type_of h d) "get")) h
                end
    | _ => Raise (AttributeError (MsgNoAttribute (type_of h d) "get")) h
    end.

(** [d.get(k, default)], the default being evaluated by the caller *)
Definition dict_get (d : pyval) (k : string) (default : pyval) : M pyval :=
  fun h =>
    match d with
    | VRef l => match h !! l with
                | Some (HDict items) =>
                    Ok (match assoc_get k items with Some v => v | None => default end) h
                | _ => Raise (AttributeError (MsgNoAttribute (type_of h d) "get")) h
                end
    | _ => Raise (AttributeError (MsgNoAttribute (type_of h d) "get")) h
    end.

(** The length of a string, list or tuple. *)
Definition sized (v : pyval) : option nat :=
  match v with
  | VStr s => Some (String.length s)
  | VList xs | VTuple xs => Some (length xs)
  | _ => None
  end.

(** [len(v)] *)
Definition len (v : pyval) : M nat :=
  fun h =>
    match v with
    | VRef l => match h !! l with
                | Some (HDict items) => Ok (length items) h
                | _ => Raise (TypeError (MsgNoLen (type_of h v))) h
                end
    | _ => match sized v with
           | Some n => Ok n h
           | None => Raise (TypeError (MsgNoLen (type_of h v))) h
           end
    end.

(** [s.split(sep)] for a one-character separator *)
Fixpoint split (sep : ascii) (s : string) : list string :=
  match s with
  | EmptyString => [EmptyString]
  | String c s' =>
      if Ascii.eqb c sep then EmptyString :: split sep s'
      else match split sep s' with
           | p :: ps => String c p :: ps
           | [] => [String c EmptyString]
           end
  end.

(** [key.startswith("__")] *)
Definition startswith (pre s : string) : bool := String.prefix pre s.

(** ** [_string_to_callable] *)

(** [name.split(":")]: only a string has the method. *)
Definition str_split (name : pyval) (sep : ascii) : M (list string) :=
  fun h =>
    match name with
    | VStr s => Ok (split sep s) h
    | _ => Raise (AttributeError (MsgNoAttribute (type_of h name) "split")) h
    end.

Definition pymodule := list (string * pyval).

(** [getattr(mod, attr_name)] on a module *)
Definition module_getattr (mod_ : pymodule) (attr_name : string) : M pyval :=
  match assoc_get attr_name mod_ with
  | Some v => ret v
  | None => raise (AttributeError (MsgNoAttribute TModule attr_name))
  end.

Section Decode.

(** The modules the interpreter can load, by absolute dotted name, each with
    its attributes. *)
Variable modules : string -> option pymodule.

(** [importlib.import_module(name)] with no package argument *)
Definition import_module (name : string) : M pymodule :=
  if startswith "." name then raise (TypeError (MsgRelativeImport name))
  else if String.eqb name "" then raise (ValueError MsgEmptyModuleName)
  else match modules name with
       | Some m => ret m
       | None => raise (ModuleNotFoundError (MsgImport name))
       end.

Definition _string_to_callable (name : pyval) : M pyval :=
  try_except_AttributeError
    (parts <- str_split name ":" ;;
     match parts with
     | [mod_name; attr_name] =>
         mod_ <- import_module mod_name ;;
         callable_object <- module_getattr mod_ attr_name ;;
         h <- get_heap ;;
         if callable h callable_object then ret callable_object
         else raise (ValueError
                       (MsgNotCallable (match name with VStr s => s | _ => "" end)))
     | _ => raise (ValueError (MsgUnpack 2 (length parts)))
     end)
    (fun e => raise (ValueError (MsgNotInterpreted name e))).

(** ** [update_class_from_dict] *)

(** [depth] is the number of nested calls the interpreter still allows. *)
Fixpoint update_class_from_dict (depth : nat) (obj data : pyval) (_ns : string)
  : M unit :=
  match depth with
  | 0 => raise RecursionError
  | S depth' =>
    items <- dict_items data ;;
    for_each items (fun '(key, value) =>
      let key_ns := _ns +:+ "/" +:+ key in
      h <- get_heap ;;
      if hasattr h obj key then
        obj_mem <- getattr obj key ;;
        if is_mapping h obj_mem then
          obj_mem_items <- dict_items obj_mem ;;
          for_each obj_mem_items (fun '(k, v) =>
            h' <- get_heap ;;
            if callable h' v then
              entry <- getitem value k ;;
              c <- _string_to_callable entry ;;
              setitem value k c
            else ret tt) ;;;
          setattr obj key value
        else if is_mapping h value then
          update_class_from_dict depth' obj_mem value key_ns
        else if is_iterable h value && negb (is_str value) then
          expected <- len obj_mem ;;
          received <- len value ;;
          if negb (Nat.eqb expected received)
             && negb (match obj_mem with VNone => true | _ => false end)
          then raise (ValueError (MsgIncorrectLength key_ns expected received))
          else setattr obj key value
        else if callable h obj_mem then
          value' <- _string_to_callable value ;;
          setattr obj key value'
        else if isinstance h value (type_of h obj_mem) then
          setattr obj key value
        else
          raise (ValueError (MsgIncorrectType key_ns (type_of h obj_mem)
                                              (type_of h value)))
      else raise (KeyError (MsgKeyNotFound key_ns)))
  end.

End Decode.

(** ** [class_to_dict] *)

(** [hasattr(obj, "__class__")]: every Python value has a class. *)
Definition hasattr_class (obj : pyval) : bool := true.

(** [f"{value.__module__}:{value.__name__}"]: an instance of a class that
    defines [__call__] has the [__module__] of its class and no [__name__]. *)
Definition qualified_name (value : pyval) : M string :=
  fun h =>
    match value with
    | VFunc m n => Ok (m +:+ ":" +:+ n) h
    | _ => Raise (AttributeError (MsgNoAttribute (type_of h value) "__name__")) h
    end.

Fixpoint class_to_dict (depth : nat) (obj : pyval) : M pyval :=
  match depth with
  | 0 => raise RecursionError
  | S depth' =>
    h0 <- get_heap ;;
    if negb (hasattr_class obj) then
      raise (ValueError (MsgExpectedInstance (type_of h0 obj)))
    else
      obj_dict <- (if is_mapping h0 obj then dict_items obj
                   else dunder_dict_items obj) ;;
      data <- dict_new ;;
      for_each obj_dict (fun '(key, value) =>
        if startswith "__" key then ret tt
        else
          h <- get_heap ;;
          if callable h value then
            name <- qualified_name value ;;
            setitem data key (VStr name)
          else if has_dict h value || is_mapping h value then
            sub <- class_to_dict depth' value ;;
            setitem data key sub
          else setitem data key value) ;;;
      ret data
  end.

(** ** [update_dict] *)

Fixpoint update_dict (depth : nat) (orig_dict new_dict : pyval) : M pyval :=
  match depth with
  | 0 => raise RecursionError
  | S depth' =>
    items <- dict_items new_dict ;;
    for_each items (fun '(keyname, value) =>
      h <- get_heap ;;
      if is_mapping h value then
        (* [orig_dict.get] is looked up, then its arguments are evaluated *)
        dict_get_method orig_dict ;;;
        empty <- dict_new ;;
        sub <- dict_get orig_dict keyname empty ;;
        merged <- update_dict depth' sub value ;;
        setitem orig_dict keyname merged
      else setitem orig_dict keyname value) ;;;
    ret orig_dict
  end.

(** ** The loop bodies, named

    The bodies of the three [for] loops over the entries of a mapping, with
    the recursive call as a parameter; [update_class_from_dict_eq],
    [class_to_dict_eq] and [update_dict_eq] state that the functions above
    run them. *)

Definition update_entry (modules : string -> option pymodule)
    (rec : pyval -> pyval -> string -> M unit) (obj : pyval) (_ns : string)
    (entry : string * pyval) : M unit :=
  let '(key, value) := entry in
  let key_ns := _ns +:+ "/" +:+ key in
  h <- get_heap ;;
  if hasattr h obj key then
    obj_mem <- getattr obj key ;;
    if is_mapping h obj_mem then
      obj_mem_items <- dict_items obj_mem ;;
      for_each obj_mem_items (fun '(k, v) =>
        h' <- get_heap ;;
        if callable h' v then
          entry <- getitem value k ;;
          c <- _string_to_callable modules entry ;;
          setitem value k c
        else ret tt) ;;;
      setattr obj key value
    else if is_mapping h value then
      rec obj_mem value key_ns
    else if is_iterable h value && negb (is_str value) then
      expected <- len obj_mem ;;
      received <- len value ;;
      if negb (Nat.eqb expected received)
         && negb (match obj_mem with VNone => true | _ => false end)
      then raise (ValueError (MsgIncorrectLength key_ns expected received))
      else setattr obj key value
    else if callable h obj_mem then
      value' <- _string_to_callable modules value ;;
      setattr obj key value'
    else if isinstance h value (type_of h obj_mem) then
      setattr obj key value
    else
      raise (ValueError (MsgIncorrectType key_ns (type_of h obj_mem)
                                          (type_of h value)))
  else raise (KeyError (MsgKeyNotFound key_ns)).

Definition class_to_dict_entry (rec : pyval -> M pyval) (data : pyval)
    (entry : string * pyval) : M unit :=
  let '(key, value) := entry in
  if startswith "__" key then ret tt
  else
    h <- get_heap ;;
    if callable h value then
      name <- qualified_name value ;;
      setitem data key (VStr name)
    else if has_dict h value || is_mapping h value then
      sub <- rec value ;;
      setitem data key sub
    else setitem data key value.

Definition update_dict_entry (rec : pyval -> pyval -> M pyval)
    (orig_dict : pyval) (entry : string * pyval) : M unit :=
  let '(keyname, value) := entry in
  h <- get_heap ;;
  if is_mapping h value then
    dict_get_method orig_dict ;;;
    empty <- dict_new ;;
    sub <- dict_get orig_dict keyname empty ;;
    merged <- rec sub value ;;
    setitem orig_dict keyname merged
  else setitem orig_dict keyname value.

(** * Specification vocabulary *)

(** ** Decoding failures *)

(** The number of occurrences of a character in a string. *)
Fixpoint occurrences (c : ascii) (s : string) : nat :=
  match s with
  | EmptyString => 0
  | String c' s' => (if Ascii.eqb c' c then 1 else 0) + occurrences c s'
  end.

(** The failure kinds of decoding an encoded callable, and the exceptions of
    [_string_to_callable] that carry them: a wrong number of [":"]-separated
    parts is the [ValueError] of the unpacking; an unloadable module is the
    exception of [importlib]; an absent attribute is the [AttributeError] of
    the module lookup re-raised as a [ValueError]; a resolved attribute that
    is not invocable is the [ValueError] of line 182. *)
Inductive decode_failure : Type :=
| FormatError | ResolutionError | NotCallableError.

Definition decode_failure_of (e : exn) : option decode_failure :=
  match e with
  | ValueError (MsgUnpack _ _) => Some FormatError
  | ModuleNotFoundError (MsgImport _) => Some ResolutionError
  | ValueError MsgEmptyModuleName => Some ResolutionError
  | TypeError (MsgRelativeImport _) => Some ResolutionError
  | ValueError (MsgNotInterpreted _ (MsgNoAttribute TModule _)) =>
      Some ResolutionError
  | ValueError (MsgNotCallable _) => Some NotCallableError
  | _ => None
  end.

(** ** Scalars and sequences *)

Definition is_scalar_or_sequence (v : pyval) : bool :=
  match v with
  | VNone | VBool _ | VInt _ | VFloat _ | VStr _ | VList _ | VTuple _ => true
  | VFunc _ _ | VRef _ => false
  end.

(** ** Where a value occurs in a mapping *)

(** [x] is the value of an entry of the mapping [v]. *)
Definition entry_of (h : heap) (v x : pyval) : Prop :=
  exists l items k, v = VRef l /\ h !! l = Some (HDict items) /\ (k, x) ∈ items.

(** [x] is an element of the list or tuple [v]. *)
Definition element_of (v x : pyval) : Prop :=
  exists xs, (v = VList xs \/ v = VTuple xs) /\ x ∈ xs.

(** [x] is stored at a key of [v] or of a mapping nested in it through
    keys. *)
Definition at_keys (h : heap) : relation pyval := tc (entry_of h).

(** [x] occurs anywhere in [v]: through keys and through the elements of
    sequences. *)
Definition anywhere (h : heap) : relation pyval :=
  tc (fun v x => entry_of h v x \/ element_of v x).

(** A value that is no invocable and no reference below [b]. *)
Definition clean (b : nat) (x : pyval) : Prop :=
  match x with
  | VFunc _ _ => False
  | VRef l => b <= l
  | _ => True
  end.

(** From [b] on, the store holds dictionaries of clean values only. *)
Definition fresh_dicts (b : nat) (h : heap) : Prop :=
  forall l o, b <= l -> h !! l = Some o ->
    exists items, o = HDict items /\ Forall (fun kx => clean b kx.2) items.

(** [h'] is [h] with new objects after it. *)
Definition extends (h h' : heap) : Prop :=
  length h <= length h' /\ forall l, l < length h -> h' !! l = h !! l.

(** ** The content of an object *)

(** What a value holds, followed through the store: a structured object with
    its class and fields, a generic mapping with its entries, or any other
    value.  A list or a tuple is a value of the last kind, compared as it
    is. *)
Inductive tree : Type :=
| TLeaf (v : pyval)
| TMap (items : list (string * tree))
| TObj (c : pyclass) (attrs : list (string * tree)).

Fixpoint height (t : tree) : nat :=
  match t with
  | TLeaf _ => 0
  | TMap items | TObj _ items => S (list_max (map (fun kt => height kt.2) items))
  end.

Definition is_leaf (v : pyval) : bool :=
  match v with VRef _ => false | _ => true end.

Definition is_node (t : tree) : bool :=
  match t with TLeaf _ => false | _ => true end.

(** [denotes P h v t]: in the store [h] the value [v] holds the content [t],
    every dictionary and instance met on the way being at a location that
    satisfies [P]. *)
Inductive denotes (P : nat -> Prop) (h : list hobj) : pyval -> tree -> Prop :=
| denotes_leaf v :
    is_leaf v = true -> denotes P h v (TLeaf v)
| denotes_map l items titems :
    P l -> h !! l = Some (HDict items) ->
    Forall2 (fun kx kt => kx.1 = kt.1 /\ denotes P h kx.2 kt.2) items titems ->
    denotes P h (VRef l) (TMap titems)
| denotes_obj l c attrs tattrs :
    P l -> h !! l = Some (HInst c attrs) ->
    Forall2 (fun kx kt => kx.1 = kt.1 /\ denotes P h kx.2 kt.2) attrs tattrs ->
    denotes P h (VRef l) (TObj c tattrs).

(** Two values are equal field for field when they hold the same content:
    the same classes, the same keys in the same order, and the same values
    at them, which is at least what [==] asks of them. *)
Definition same_content (h : list hobj) (a b : pyval) : Prop :=
  exists t, denotes (fun _ => True) h a t /\ denotes (fun _ => True) h b t.

(** The content of the mapping that serializing a content gives: an
    invocable held by a field or entry becomes its ["module:name"] string,
    a key that starts with ["__"] is left out, an object becomes a mapping. *)
Fixpoint ser (t : tree) : tree :=
  let ser_items :=
    fix ser_items (items : list (string * tree)) : list (string * tree) :=
      match items with
      | [] => []
      | (k, t') :: rest =>
          if startswith "__" k then ser_items rest
          else (k, ser t') :: ser_items rest
      end in
  match t with
  | TLeaf (VFunc m n) => TLeaf (VStr (m +:+ ":" +:+ n))
  | TLeaf v => TLeaf v
  | TMap items | TObj _ items => TMap (ser_items items)
  end.

Fixpoint ser_items (items : list (string * tree)) : list (string * tree) :=
  match items with
  | [] => []
  | (k, t') :: rest =>
      if startswith "__" k then ser_items rest else (k, ser t') :: ser_items rest
  end.

(** A content that [class_to_dict] can traverse: keys are unique and no
    object is an instance of a class with [__call__]. *)
Fixpoint serializable (t : tree) : bool :=
  match t with
  | TLeaf v => is_leaf v
  | TMap items =>
      bool_decide (NoDup (map fst items))
      && forallb (fun kt => serializable kt.2) items
  | TObj c items =>
      negb (cls_call c)
      && bool_decide (NoDup (map fst items))
      && forallb (fun kt => serializable kt.2) items
  end.

(** A content that a round trip through a mapping can restore: no invocable
    and no key that starts with ["__"], and no object below a generic
    mapping ([in_map] tells that a mapping is above). *)
Fixpoint plain (in_map : bool) (t : tree) : bool :=
  match t with
  | TLeaf v => match v with VFunc _ _ => false | _ => true end
  | TMap items =>
      forallb (fun kt => negb (startswith "__" kt.1) && plain true kt.2) items
  | TObj c items =>
      negb in_map
      && forallb (fun kt => negb (startswith "__" kt.1) && plain false kt.2) items
  end.

(** ** The schema of a merge target *)

(** A field that holds [cur] takes the scalar, string or sequence [v]: a
    sequence needs a current string, list or tuple of its length, any other
    value a current value of whose type it is an instance.  Neither value is
    a reference, so that their types do not depend on the store: the empty
    store stands for any. *)
Definition accepts (cur v : pyval) : bool :=
  is_leaf cur &&
  match v with
  | VList xs | VTuple xs =>
      match sized cur with Some n => Nat.eqb n (length xs) | None => false end
  | VRef _ | VFunc _ _ => false
  | _ => negb (callable [] cur) && isinstance [] v (type_of [] cur)
  end.

(** [target h v t ws]: in the store [h] the value [v] has the schema of the
    content [t].  Where [t] has an object [v] has an instance of the same
    class with the same fields in the same order, where [t] has a generic
    mapping [v] has a mapping without invocable entries, and where [t] has
    another value [v] has a value that accepts it.  [ws] lists the instances
    of [v], each as often as it is met. *)
Inductive target (h : list hobj) : pyval -> tree -> list nat -> Prop :=
| target_leaf cur v :
    accepts cur v = true -> target h cur (TLeaf v) []
| target_map l cur_items titems :
    h !! l = Some (HDict cur_items) ->
    Forall (fun kx => callable h kx.2 = false) cur_items ->
    target h (VRef l) (TMap titems) []
| target_obj l c attrs tattrs ws :
    h !! l = Some (HInst c attrs) ->
    targets h attrs tattrs ws ->
    target h (VRef l) (TObj c tattrs) (l :: ws)
with targets (h : list hobj)
  : list (string * pyval) -> list (string * tree) -> list nat -> Prop :=
| targets_nil : targets h [] [] []
| targets_cons k cur t ws rest trest wsrest :
    target h cur t ws -> targets h rest trest wsrest ->
    targets h ((k, cur) :: rest) ((k, t) :: trest) (ws ++ wsrest).

(** [h2] is [h] with the attributes of the instances at [ws] possibly
    changed, and nothing else. *)
Definition modified (ws : list nat) (h h2 : list hobj) : Prop :=
  length h2 = length h
  /\ forall l, h2 !! l = h !! l
       \/ (l ∈ ws /\ exists c a a2, h !! l = Some (HInst c a)
                                    /\ h2 !! l = Some (HInst c a2)).

(** ** Statements proved by induction on the content *)

(** The statement, for one content: on an object or mapping that holds it,
    [class_to_dict] returns a new mapping that holds its serialized content in
    new dictionaries. *)
Definition serialize_ok (t : tree) : Prop :=
  forall (P : nat -> Prop) depth h o,
    denotes P h o t -> serializable t = true -> is_node t = true ->
    height t < depth ->
    exists h',
      class_to_dict depth o h = Ok (VRef (length h)) h'
      /\ extends h h' /\ length h < length h'
      /\ denotes (fun l => length h <= l) h' (VRef (length h)) (ser t).

(** The statement, for the content of one object: merging a mapping that
    holds its serialized content into a target of its schema succeeds, changes
    the instances of the target only, and leaves the target holding the
    content. *)
Definition merge_ok (modules : string -> option pymodule) (t : tree) : Prop :=
  forall c tattrs, t = TObj c tattrs ->
  forall depth h d o' ws _ns b,
    height t < depth ->
    serializable t = true -> plain false t = true ->
    denotes (fun l => b <= l) h d (ser t) ->
    target h o' t ws -> NoDup ws -> (forall l, l ∈ ws -> l < b) ->
    exists h2,
      update_class_from_dict modules depth o' d _ns h = Ok tt h2
      /\ modified ws h h2
      /\ denotes (fun l => l ∈ ws \/ b <= l) h2 o' t.

(** * [print_dict] *)

(** The text written to the standard output is threaded through the
    computation: a printer takes the text written so far and returns the
    text written when it ends, with the exception it ended with, if any.
    [print_dict] reads the store and does not change it. *)
Definition printer : Type := string -> string * option exn.

Definition newline : string := String (ascii_of_nat 10) EmptyString.

(** [n * " "], which is empty for a negative [n] *)
Definition spaces (n : Z) : string :=
  string_of_list_ascii (repeat " "%char (Z.to_nat n)).

(** [for k in ks: body] *)
Fixpoint print_for (ks : list string) (body : string -> printer) : printer :=
  fun out =>
    match ks with
    | [] => (out, None)
    | k :: ks' =>
        match body k out with
        | (out', None) => print_for ks' body out'
        | r => r
        end
    end.

(** The entries of [val] when [type(val) == dict]. *)
Definition as_dict (h : heap) (val : pyval) : option (list (string * pyval)) :=
  match val with
  | VRef l => match h !! l with Some (HDict items) => Some items | _ => None end
  | _ => None
  end.

(** What [print_dict] writes for a value: one line for a value that is no
    dictionary, and for a dictionary what it writes for each entry. *)
Inductive layout : Type :=
| LLeaf (text : string)
| LDict (entries : list (string * layout)).

Fixpoint levels (t : layout) : nat :=
  match t with
  | LLeaf _ => 0
  | LDict entries => S (list_max (map (fun kt => levels kt.2) entries))
  end.

(** The text of a layout: an entry of a dictionary is its key after the
    indentation of its level, four spaces per level, then [": "] and the
    text of its value; a nested dictionary starts on a new line. *)
Fixpoint render (t : layout) (nesting : Z) (start : bool) : string :=
  match t with
  | LLeaf text => text +:+ newline
  | LDict entries =>
      (if start then "" else newline)
      +:+ (fix lines (es : list (string * layout)) : string :=
             match es with
             | [] => ""
             | (k, t') :: rest =>
                 spaces (nesting + 4) +:+ k +:+ ": "
                 +:+ render t' (nesting + 4) false +:+ lines rest
             end) entries
  end.

Fixpoint render_entries (es : list (string * layout)) (nesting : Z) : string :=
  match es with
  | [] => ""
  | (k, t') :: rest =>
      spaces nesting +:+ k +:+ ": "
      +:+ render t' nesting false +:+ render_entries rest nesting
  end.

Section Printing.

(** [str(val)], as [print] writes a value that is no dictionary. *)
Variable str : heap -> pyval -> string.

Fixpoint print_dict (depth : nat) (h : heap) (val : pyval) (nesting : Z)
    (start : bool) : printer :=
  fun out =>
    match depth with
    | 0 => (out, Some RecursionError)
    | S depth' =>
        match as_dict h val with
        | Some items =>
            let out := if start then out else out +:+ newline in
            let nesting := (nesting + 4)%Z in
            print_for (keys items) (fun k out =>
              let out := out +:+ spaces nesting in
              let out := out +:+ k +:+ ": " in
              match assoc_get k items with
              | Some v => print_dict depth' h v nesting false out
              | None => (out, Some (KeyError (MsgMissing k)))
              end) out
        | None => (out +:+ str h val +:+ newline, None)
        end
    end.

(** [shows h val t]: in the store [h] the value [val] has the layout [t]. *)
Inductive shows (h : heap) : pyval -> layout -> Prop :=
| shows_leaf val :
    as_dict h val = None -> shows h val (LLeaf (str h val))
| shows_dict val items entries :
    as_dict h val = Some items ->
    Forall2 (fun kv kt => kv.1 = kt.1 /\ shows h kv.2 kt.2) items entries ->
    shows h val (LDict entries).

End Printing.

(** * [Timer]: [omni/isaac/orbit/utils/timer.py] *)

(** The timer reads the clock with [time.perf_counter()]; a method that
    reads it takes the reading as an argument.  A method that assigns to a
    field of [self] returns the timer it leaves.  Readings are floats: their
    type, their subtraction and their formatting with six decimals are left
    open. *)
Module timer.

Inductive timer_exn : Type :=
| TimerError (msg : string)
| TypeError.   (* [float - None] *)

Inductive result (A : Type) : Type :=
| Returned (a : A)
| Raised (e : timer_exn).
Arguments Returned {A} a.
Arguments Raised {A} e.

Section Clock.

Variable time : Type.
Variable sub : time -> time -> time.       (* [a - b] *)
Variable fmt : time -> string.             (* [f"{a:0.6f}"] *)

Record Timer : Type := mkTimer {
  _msg : option string;
  _start_time : option time;
  _stop_time : option time;
  _elapsed_time : option time
}.

Definition __init__ (msg : option string) : Timer :=
  {| _msg := msg; _start_time := None; _stop_time := None;
     _elapsed_time := None |}.

(** [self.time_elapsed] *)
Definition time_elapsed (self : Timer) (now : time) : result time :=
  match _start_time self with
  | Some started => Returned (sub now started)
  | None => Raised TypeError
  end.

(** [str(self)] *)
Definition __str__ (self : Timer) (now : time) : result string :=
  match time_elapsed self now with
  | Returned elapsed => Returned (fmt elapsed +:+ " seconds")
  | Raised e => Raised e
  end.

(** [self.total_run_time] *)
Definition total_run_time (self : Timer) : option time := _elapsed_time self.

Definition start (self : Timer) (now : time) : result Timer :=
  match _start_time self with
  | Some _ => Raised (TimerError "Timer is running. Use .stop() to stop it")
  | None =>
      Returned {| _msg := _msg self; _start_time := Some now;
                  _stop_time := _stop_time self;
                  _elapsed_time := _elapsed_time self |}
  end.

Definition stop (self : Timer) (now : time) : result Timer :=
  match _start_time self with
  | None => Raised (TimerError "Timer is not running. Use .start() to start it")
  | Some started =>
      Returned {| _msg := _msg self; _start_time := None;
                  _stop_time := Some now;
                  _elapsed_time := Some (sub now started) |}
  end.

Definition __enter__ (self : Timer) (now : time) : result Timer :=
  start self now.

(** [__exit__] returns the timer and the text written to the standard
    output: [print] separates its two arguments with a space. *)
Definition __exit__ (self : Timer) (now : time) (out : string)
  : result (Timer * string) :=
  match stop self now with
  | Raised e => Raised e
  | Returned self' =>
      match _msg self', _elapsed_time self' with
      | Some msg, Some elapsed =>
          Returned (self', out +:+ msg +:+ " " +:+ ": " +:+ fmt elapsed
                             +:+ " seconds" +:+ newline)
      | Some _, None => Raised TypeError   (* formatting [None] *)
      | None, _ => Returned (self', out)
      end
  end.

(** A call of [start] or of [stop], with the reading of the clock. *)
Inductive call : Type :=
| Start (now : time)
| Stop (now : time).

(** The calls of a list, one after the other, up to the first that raises. *)
Fixpoint calls (cs : list call) (self : Timer) : result Timer :=
  match cs with
  | [] => Returned self
  | c :: cs' =>
      match (match c with Start now => start self now
                        | Stop now => stop self now end) with
      | Returned self' => calls cs' self'
      | Raised e => Raised e
      end
  end.

Definition running (self : Timer) : bool :=
  match _start_time self with Some _ => true | None => false end.

(** Calls that alternate, beginning with [stop] for a running timer and
    with [start] for another. *)
Fixpoint alternate (is_running : bool) (cs : list call) : bool :=
  match cs with
  | [] => true
  | Start _ :: cs' => negb is_running && alternate true cs'
  | Stop _ :: cs' => is_running && alternate false cs'
  end.

End Clock.

End timer.

(** ** Example data *)

Module Demo.

Definition Cfg : pyclass := PyClass "Cfg" [] false.
Definition Inner : pyclass := PyClass "Inner" [] false.

(** An interpreter that can load one module, [math], with an invocable [sin]
    and a number [pi]. *)
Definition modules (name : string) : option pymodule :=
  if String.eqb name "math"
  then Some [("sin", VFunc "math" "sin"); ("pi", VFloat 0x400921FB54442D18)]
  else None.

(** A store with an object [VRef 0] whose one field holds [cur] and a
    mapping [VRef 1] that binds the field to [value]. *)
Definition store (cur value : pyval) : heap :=
  [HInst Cfg [("field", cur)]; HDict [("field", value)]].

(** An object [VRef 0] with fields [a = 1] and [b = 2], and a mapping [VRef 1]
    with [a = 5] and [b = "x"]. *)
Definition two_fields : heap :=
  [HInst Cfg [("a", VInt 1); ("b", VInt 2)];
   HDict [("a", VInt 5); ("b", VStr "x")]].

(** A base mapping [VRef 0 = {"a": 1}] and an overlay
    [VRef 1 = {"a": {"b": 2}}]. *)
Definition scalar_base : heap :=
  [HDict [("a", VInt 1)]; HDict [("a", VRef 2)]; HDict [("b", VInt 2)]].

(** An object [VRef 0] whose field holds the mapping [VRef 2], with an
    invocable at ["f"], and a mapping [VRef 1] that binds the field to the
    mapping [incoming], stored at [VRef 3]. *)
Definition mapping_field (incoming : list (string * pyval)) : heap :=
  [HInst Cfg [("field", VRef 2)];
   HDict [("field", VRef 3)];
   HDict [("f", VFunc "math" "sin"); ("a", VInt 1); ("b", VInt 2)];
   HDict incoming].

(** A configured object [VRef 0], with a string, a list, a generic mapping
    and a nested object, and a default-constructed object [VRef 3] of the
    same schema. *)
Definition configured : heap :=
  [HInst Cfg [("name", VStr "arm"); ("gains", VList [VInt 1; VInt 2]);
              ("opts", VRef 1); ("inner", VRef 2)];
   HDict [("a", VInt 1); ("b", VInt 2)];
   HInst Inner [("x", VInt 7)];
   HInst Cfg [("name", VStr ""); ("gains", VList [VInt 0; VInt 0]);
              ("opts", VRef 4); ("inner", VRef 5)];
   HDict [];
   HInst Inner [("x", VInt 0)]].

Definition configured_content : list (string * tree) :=
  [("name", TLeaf (VStr "arm")); ("gains", TLeaf (VList [VInt 1; VInt 2]));
   ("opts", TMap [("a", TLeaf (VInt 1)); ("b", TLeaf (VInt 2))]);
   ("inner", TObj Inner [("x", TLeaf (VInt 7))])].

(** An object [VRef 0] whose mapping field holds a structured object, and an
    object [VRef 3] of the same classes and fields. *)
Definition object_in_mapping : heap :=
  [HInst Cfg [("opts", VRef 1)];
   HDict [("a", VRef 2)];
   HInst Inner [("x", VInt 1)];
   HInst Cfg [("opts", VRef 4)];
   HDict [("a", VRef 5)];
   HInst Inner [("x", VInt 0)]].

(** An object [VRef 0] with a two-element list and an object [VRef 1] of the
    same class whose list is empty. *)
Definition empty_default : heap :=
  [HInst Cfg [("gains", VList [VInt 1; VInt 2])];
   HInst Cfg [("gains", VList [])]].

(** An object [VRef 0] whose field [fns] is a list holding an invocable. *)
Definition callable_in_list : heap :=
  [HInst Cfg [("fns", VList [VFunc "math" "sin"]); ("f", VFunc "math" "sin")]].

End Demo.

(** ** Objects of the store, by what they hold *)

(** The entries of a dictionary, the attributes of an instance. *)
Definition entries_of (o : hobj) : list (string * pyval) :=
  match o with HDict items => items | HInst _ attrs => attrs end.



(** The keys that [class_to_dict] keeps. *)
Definition public_keys (ks : list string) : list string :=
  List.filter (fun k => negb (startswith "__" k)) ks.

(** ** More example data *)

(** [d.update(new)] on the entries of a dictionary: the entries of [new] are
    assigned in their order. *)
Definition dict_update (items new : list (string * pyval))
  : list (string * pyval) :=
  foldl (fun acc kv => assoc_set kv.1 kv.2 acc) items new.

(** A value that, where it is a reference, refers to an object of the
    store. *)
Definition allocated (h : heap) (v : pyval) : Prop :=
  match v with VRef l => l < length h | _ => True end.

(** An object as a later store may hold it when nothing was taken from it:
    an instance is as it was, a dictionary has its keys in their order,
    followed by the keys added since. *)
Definition grown (o o' : hobj) : Prop :=
  match o with
  | HInst _ _ => o' = o
  | HDict items =>
      exists items', o' = HDict items' /\ keys items `prefix_of` keys items'
  end.

(** A later store in which every object of the earlier one has [grown]. *)
Definition grows (h h' : heap) : Prop :=
  length h <= length h'
  /\ forall l o, h !! l = Some o -> exists o', h' !! l = Some o' /\ grown o o'.

Module Sample.

(** An object [VRef 0] whose field [me] is the object itself. *)
Definition self_reference : heap :=
  [HInst Demo.Cfg [("me", VRef 0); ("x", VInt 1)]].

(** A class whose instances can be called. *)
Definition Policy : pyclass := PyClass "Policy" [] true.

(** An object [VRef 0] whose field [act] is an instance of [Policy]. *)
Definition callable_instance : heap :=
  [HInst Demo.Cfg [("act", VRef 1)]; HInst Policy []].

(** An object [VRef 0] with a reserved name among its attributes. *)
Definition reserved_name : heap :=
  [HInst Demo.Cfg [("__hidden", VInt 0); ("a", VInt 1); ("b", VRef 1)];
   HDict [("c", VInt 2)]].

(** An object [VRef 0] with a nested object [VRef 1], and a mapping [VRef 2]
    that names a field the nested object does not have. *)
Definition nested_unknown : heap :=
  [HInst Demo.Cfg [("physics", VRef 1)];
   HInst Demo.Inner [("x", VInt 0)];
   HDict [("physics", VRef 3)];
   HDict [("solver", VInt 4)]].

(** An object [VRef 0] whose field [activation] holds an invocable, and a
    mapping [VRef 1] that binds the field to [value]. *)
Definition callable_field (value : pyval) : heap :=
  [HInst Demo.Cfg [("activation", VFunc "math" "cos")];
   HDict [("activation", value)]].

(** An interpreter that can load [math] with the invocables [sin] and
    [cos]. *)
Definition modules (name : string) : option pymodule :=
  if String.eqb name "math"
  then Some [("sin", VFunc "math" "sin"); ("cos", VFunc "math" "cos")]
  else None.

(** An object [VRef 0] with a number, and a mapping [VRef 1] that binds the
    field to the empty mapping [VRef 2]. *)
Definition empty_for_scalar : heap :=
  [HInst Demo.Cfg [("x", VInt 3)]; HDict [("x", VRef 2)]; HDict []].

(** A base [VRef 0] = [{"a": 1, "b": 2}] and an overlay [VRef 1] =
    [{"b": 3, "c": 4}]. *)
Definition flat_overlay : heap :=
  [HDict [("a", VInt 1); ("b", VInt 2)]; HDict [("b", VInt 3); ("c", VInt 4)]].

(** A base [VRef 0] = [{"opt": {"lr": 1, "eps": 2}}] and an overlay
    [VRef 2] = [{"opt": {"lr": 5}}]. *)
Definition nested_overlay : heap :=
  [HDict [("opt", VRef 1)]; HDict [("lr", VInt 1); ("eps", VInt 2)];
   HDict [("opt", VRef 3)]; HDict [("lr", VInt 5)]].


(** [VRef 0] = [{"env": {"num": 4}, "seed": 7}] *)
Definition nested_text : heap :=
  [HDict [("env", VRef 1); ("seed", VInt 7)]; HDict [("num", VInt 4)]].

(** A rendering of the integers of the samples. *)
Definition str (h : heap) (v : pyval) : string :=
  match v with
  | VInt 4 => "4"
  | VInt 7 => "7"
  | _ => "?"
  end.

(** [VRef 0] = [d] where [d["me"] = d] *)
Definition self_mapping : heap := [HDict [("me", VRef 0)]].

End Sample.

(** * Properties *)

(** ** Computation rules *)

Lemma for_each_cons {A} (x : A) xs body h :
  for_each (x :: xs) body h = bind (body x) (fun _ => for_each xs body) h.
Proof. reflexivity. Qed.

Lemma update_class_from_dict_eq modules depth obj data _ns :
  update_class_from_dict modules (S depth) obj data _ns =
    (items <- dict_items data ;;
     for_each items
       (update_entry modules (update_class_from_dict modules depth) obj _ns)).
Proof. reflexivity. Qed.

Lemma class_to_dict_eq depth obj :
  class_to_dict (S depth) obj =
    (h0 <- get_heap ;;
     obj_dict <- (if is_mapping h0 obj then dict_items obj
                  else dunder_dict_items obj) ;;
     data <- dict_new ;;
     for_each obj_dict (class_to_dict_entry (class_to_dict depth) data) ;;;
     ret data).
Proof. reflexivity. Qed.

Lemma update_dict_eq depth orig_dict new_dict :
  update_dict (S depth) orig_dict new_dict =
    (items <- dict_items new_dict ;;
     for_each items (update_dict_entry (update_dict depth) orig_dict) ;;;
     ret orig_dict).
Proof. reflexivity. Qed.

(** ** [str.split] *)

Lemma split_length sep s : length (split sep s) = S (occurrences sep s).
Proof.
  induction s as [|c s IH]; simpl; [reflexivity|].
  destruct (Ascii.eqb c sep); simpl.
  - now rewrite IH.
  - destruct (split sep s) eqn:E; simpl in *; [discriminate | exact IH].
Qed.

(** ** [_string_to_callable] *)

Lemma import_module_failure modules name h e h' :
  import_module modules name h = Raise e h' ->
  h' = h /\ decode_failure_of e = Some ResolutionError
  /\ (forall m, e <> AttributeError m).
Proof.
  unfold import_module, raise, ret.
  destruct (startswith "." name); [intros [= <- <-]; auto|].
  destruct (String.eqb name ""); [intros [= <- <-]; auto|].
  destruct (modules name); [discriminate | intros [= <- <-]; auto].
Qed.

(** C5. [_string_to_callable] fails with a format-kind error when the string
    has zero or more than one [":"]; when it has exactly one, it fails with a
    resolution-kind error if the module cannot be loaded or lacks the
    attribute, and with a not-callable-kind error if the attribute is there
    and is not invocable.  In particular ["not_a_valid_format"] is a format
    failure and, where no module [nomodule.none] can be loaded,
    ["nomodule.none:attr"] is a resolution failure. *)
Theorem string_to_callable_failures (modules : string -> option pymodule)
    (s : string) (h : heap) :
  (occurrences ":" s <> 1 ->
   exists e, _string_to_callable modules (VStr s) h = Raise e h
             /\ decode_failure_of e = Some FormatError)
  /\ (forall mod_name attr_name, split ":" s = [mod_name; attr_name] ->
      occurrences ":" s = 1
      /\ (forall e h', import_module modules mod_name h = Raise e h' ->
          _string_to_callable modules (VStr s) h = Raise e h
          /\ decode_failure_of e = Some ResolutionError)
      /\ (forall m, import_module modules mod_name h = Ok m h ->
          (assoc_get attr_name m = None ->
           exists e, _string_to_callable modules (VStr s) h = Raise e h
                     /\ decode_failure_of e = Some ResolutionError)
          /\ (forall v, assoc_get attr_name m = Some v -> callable h v = false ->
              exists e, _string_to_callable modules (VStr s) h = Raise e h
                        /\ decode_failure_of e = Some NotCallableError)))
  /\ (exists e, _string_to_callable modules (VStr "not_a_valid_format") h = Raise e h
                /\ decode_failure_of e = Some FormatError)
  /\ (modules "nomodule.none" = None ->
      exists e, _string_to_callable modules (VStr "nomodule.none:attr") h = Raise e h
                /\ decode_failure_of e = Some ResolutionError).
Proof.
  split; [|split; [|split]].
  - intros Hn. pose proof (split_length ":" s) as Hl.
    unfold _string_to_callable, try_except_AttributeError, bind, str_split.
    destruct (split ":" s) as [|a [|b [|c l]]] eqn:E; simpl in *.
    + discriminate.
    + eexists; split; reflexivity.
    + exfalso. apply Hn. lia.
    + eexists; split; reflexivity.
  - intros mod_name attr_name E.
    split; [pose proof (split_length ":" s) as Hl; rewrite E in Hl; simpl in Hl; lia|].
    split.
    + intros e h' Hi. destruct (import_module_failure _ _ _ _ _ Hi) as (-> & Hk & Hne).
      split; [|exact Hk].
      unfold _string_to_callable, try_except_AttributeError, bind, str_split.
      rewrite E, Hi. destruct e; try reflexivity. exfalso; eapply Hne; reflexivity.
    + intros m Hi. split.
      * intros Ha. eexists.
        unfold _string_to_callable, try_except_AttributeError, bind, str_split,
          module_getattr.
        rewrite E, Hi, Ha. simpl. split; reflexivity.
      * intros v Ha Hc. eexists.
        unfold _string_to_callable, try_except_AttributeError, bind, str_split,
          module_getattr, get_heap.
        rewrite E, Hi, Ha. simpl. rewrite Hc. simpl. split; reflexivity.
  - eexists. split; reflexivity.
  - intros Hm. eexists.
    unfold _string_to_callable, try_except_AttributeError, bind, str_split,
      import_module.
    simpl. rewrite Hm. simpl. split; reflexivity.
Qed.

Lemma string_to_callable_failures_witness :
  let h : heap := [] in
  (exists e, _string_to_callable Demo.modules (VStr "a:b:c") h = Raise e h
             /\ decode_failure_of e = Some FormatError)
  /\ (exists e, _string_to_callable Demo.modules (VStr "maths:sin") h = Raise e h
                /\ decode_failure_of e = Some ResolutionError)
  /\ (exists e, _string_to_callable Demo.modules (VStr "math:cos") h = Raise e h
                /\ decode_failure_of e = Some ResolutionError)
  /\ (exists e, _string_to_callable Demo.modules (VStr "math:pi") h = Raise e h
                /\ decode_failure_of e = Some NotCallableError)
  /\ (exists e, _string_to_callable Demo.modules (VStr "nomodule.none:attr") h = Raise e h
                /\ decode_failure_of e = Some ResolutionError).
Proof.
  intros h.
  split; [|split; [|split; [|split]]].
  - apply (proj1 (string_to_callable_failures Demo.modules "a:b:c" h)).
    vm_compute. discriminate.
  - destruct (proj1 (proj2 (string_to_callable_failures Demo.modules "maths:sin" h))
                "maths" "sin" eq_refl) as (_ & Hmod & _).
    eexists. apply (Hmod _ h). reflexivity.
  - destruct (proj1 (proj2 (string_to_callable_failures Demo.modules "math:cos" h))
                "math" "cos" eq_refl) as (_ & _ & Hattr).
    eapply (proj1 (Hattr _ eq_refl)). reflexivity.
  - destruct (proj1 (proj2 (string_to_callable_failures Demo.modules "math:pi" h))
                "math" "pi" eq_refl) as (_ & _ & Hattr).
    eapply (proj2 (Hattr _ eq_refl)); reflexivity.
  - apply (proj2 (proj2 (proj2 (string_to_callable_failures Demo.modules "x" h)))).
    reflexivity.
Defined.

(** ** [class_to_dict] on values without an attribute dictionary *)

(** C6. Called on a scalar or on a sequence, [class_to_dict] does fail, but
    not with the [ValueError] its docstring announces: the guard of line 36
    holds of every value, and the failure is the [AttributeError] of
    [obj.__dict__]. *)
Theorem class_to_dict_scalar_AttributeError (depth : nat) (h : heap)
    (v : pyval) :
  is_scalar_or_sequence v = true ->
  hasattr_class v = true
  /\ class_to_dict (S depth) v h
     = Raise (AttributeError (MsgNoAttribute (type_of h v) "__dict__")) h.
Proof.
  intros Hv. split; [reflexivity|].
  rewrite class_to_dict_eq. unfold bind at 1. unfold get_heap at 1.
  unfold hasattr_class. cbn [negb]. unfold bind at 1.
  destruct v; try discriminate; reflexivity.
Qed.

Lemma class_to_dict_scalar_AttributeError_witness :
  class_to_dict 1 (VInt 3) []
  = Raise (AttributeError (MsgNoAttribute TInt "__dict__")) []
  /\ class_to_dict 1 (VList [VInt 1; VInt 2]) []
     = Raise (AttributeError (MsgNoAttribute TList "__dict__")) [].
Proof.
  split.
  - exact (proj2 (class_to_dict_scalar_AttributeError 0 [] (VInt 3) eq_refl)).
  - exact (proj2 (class_to_dict_scalar_AttributeError 0 []
                    (VList [VInt 1; VInt 2]) eq_refl)).
Defined.

(** ** One entry of [update_class_from_dict] *)

Lemma update_single_entry modules depth h obj ld key value _ns :
  h !! ld = Some (HDict [(key, value)]) ->
  update_class_from_dict modules (S depth) obj (VRef ld) _ns h =
    update_entry modules (update_class_from_dict modules depth) obj _ns
      (key, value) h.
Proof.
  intros Hld. rewrite update_class_from_dict_eq.
  unfold bind at 1. unfold dict_items. rewrite Hld.
  cbn [for_each]. unfold bind at 1.
  destruct (update_entry _ _ _ _ _ h) as [[] ?|]; reflexivity.
Qed.

(** C3, as the code has it. Where no mapping, sequence or callable case
    applies, the incoming value is assigned exactly when it is an instance of
    the type of the current value, that is when its type is that type or a
    subclass of it; otherwise the merge fails with the type-mismatch
    [ValueError] naming the namespace path, the expected and the received
    type. *)
Theorem update_scalar_field (modules : string -> option pymodule) (depth : nat)
    (h : heap) (lo ld : loc) (c : pyclass) (attrs : list (string * pyval))
    (key : string) (value cur : pyval) (_ns : string) :
  h !! lo = Some (HInst c attrs) ->
  h !! ld = Some (HDict [(key, value)]) ->
  assoc_get key attrs = Some cur ->
  is_mapping h cur = false ->
  is_mapping h value = false ->
  is_iterable h value && negb (is_str value) = false ->
  callable h cur = false ->
  update_class_from_dict modules (S depth) (VRef lo) (VRef ld) _ns h =
    if isinstance h value (type_of h cur)
    then Ok tt (<[lo := HInst c (assoc_set key value attrs)]> h)
    else Raise (ValueError (MsgIncorrectType (_ns +:+ "/" +:+ key)
                              (type_of h cur) (type_of h value))) h.
Proof.
  intros Hlo Hld Hkey Hmc Hmv Hit Hcc.
  rewrite (update_single_entry _ _ _ _ _ _ _ _ Hld).
  unfold update_entry, bind, get_heap, hasattr, getattr, setattr, raise.
  rewrite Hlo, Hkey. cbn beta iota.
  rewrite Hlo, Hkey, Hmc, Hmv, Hit, Hcc.
  destruct (isinstance h value (type_of h cur)); [rewrite Hlo|]; reflexivity.
Qed.

Lemma update_scalar_field_witness :
  update_class_from_dict Demo.modules 1 (VRef 0) (VRef 1) ""
    (Demo.store (VInt 3) (VStr "x"))
  = Raise (ValueError (MsgIncorrectType "/field" TInt TStr))
      (Demo.store (VInt 3) (VStr "x"))
  /\ update_class_from_dict Demo.modules 1 (VRef 0) (VRef 1) ""
       (Demo.store (VInt 3) (VInt 5))
     = Ok tt (Demo.store (VInt 5) (VInt 5)).
Proof.
  split.
  - exact (update_scalar_field Demo.modules 0 (Demo.store (VInt 3) (VStr "x"))
             0 1 Demo.Cfg [("field", VInt 3)] "field" (VStr "x") (VInt 3) ""
             eq_refl eq_refl eq_refl eq_refl eq_refl eq_refl eq_refl).
  - exact (update_scalar_field Demo.modules 0 (Demo.store (VInt 3) (VInt 5))
             0 1 Demo.Cfg [("field", VInt 3)] "field" (VInt 5) (VInt 3) ""
             eq_refl eq_refl eq_refl eq_refl eq_refl eq_refl eq_refl).
Defined.

(** C3 as stated fails: an integer field accepts [True], whose type [bool]
    is a proper subclass of [int] and not [int] itself. *)
Lemma update_accepts_subclass :
  let h := Demo.store (VInt 3) (VBool true) in
  type_of h (VBool true) <> type_of h (VInt 3)
  /\ bases_of h (VBool true) = [type_of h (VInt 3)]
  /\ update_class_from_dict Demo.modules 1 (VRef 0) (VRef 1) "" h
     = Ok tt (Demo.store (VBool true) (VBool true)).
Proof. repeat split. discriminate. Qed.

(** C4, as the code has it. When the incoming value is a list or a tuple and
    the current value of the field is a string, a list or a tuple, empty or
    not: if the lengths differ the merge fails with the length-mismatch
    [ValueError] carrying the namespace path, the expected and the received
    length, and leaves the store as it was; if they are equal the field is
    assigned the whole incoming sequence. *)
Theorem update_sequence_field (modules : string -> option pymodule)
    (depth : nat) (h : heap) (lo ld : loc) (c : pyclass)
    (attrs : list (string * pyval)) (key : string) (value cur : pyval)
    (expected received : nat) (_ns : string) :
  h !! lo = Some (HInst c attrs) ->
  h !! ld = Some (HDict [(key, value)]) ->
  assoc_get key attrs = Some cur ->
  is_str value = false ->
  sized value = Some received ->
  sized cur = Some expected ->
  update_class_from_dict modules (S depth) (VRef lo) (VRef ld) _ns h =
    if Nat.eqb expected received
    then Ok tt (<[lo := HInst c (assoc_set key value attrs)]> h)
    else Raise (ValueError (MsgIncorrectLength (_ns +:+ "/" +:+ key)
                              expected received)) h.
Proof.
  intros Hlo Hld Hkey Hstr Hv Hc.
  rewrite (update_single_entry _ _ _ _ _ _ _ _ Hld).
  unfold update_entry, bind, get_heap, hasattr, getattr, setattr, raise, len.
  rewrite Hlo, Hkey. cbn beta iota. rewrite Hlo, Hkey.
  assert (Hmc : is_mapping h cur = false) by (destruct cur; try discriminate; reflexivity).
  assert (Hmv : is_mapping h value = false) by (destruct value; try discriminate; reflexivity).
  assert (Hit : is_iterable h value && negb (is_str value) = true)
    by (destruct value; try discriminate; reflexivity).
  rewrite Hmc, Hmv, Hit.
  destruct cur; try discriminate; destruct value; try discriminate;
    cbn [sized] in *; rewrite ?Hc, ?Hv; injection Hc as <-; injection Hv as <-;
    cbn beta iota; destruct (Nat.eqb _ _); cbn [negb andb]; rewrite ?Hlo; reflexivity.
Qed.

Lemma update_sequence_field_witness :
  update_class_from_dict Demo.modules 1 (VRef 0) (VRef 1) ""
    (Demo.store (VList [VInt 1; VInt 2; VInt 3]) (VList [VInt 1; VInt 2]))
  = Raise (ValueError (MsgIncorrectLength "/field" 3 2))
      (Demo.store (VList [VInt 1; VInt 2; VInt 3]) (VList [VInt 1; VInt 2]))
  /\ update_class_from_dict Demo.modules 1 (VRef 0) (VRef 1) ""
       (Demo.store (VList [VInt 1; VInt 2; VInt 3]) (VList [VInt 4; VInt 5; VInt 6]))
     = Ok tt (Demo.store (VList [VInt 4; VInt 5; VInt 6])
                         (VList [VInt 4; VInt 5; VInt 6])).
Proof.
  split.
  - exact (update_sequence_field Demo.modules 0
             (Demo.store (VList [VInt 1; VInt 2; VInt 3]) (VList [VInt 1; VInt 2]))
             0 1 Demo.Cfg
             [("field", VList [VInt 1; VInt 2; VInt 3])] "field"
             (VList [VInt 1; VInt 2]) (VList [VInt 1; VInt 2; VInt 3]) 3 2 ""
             eq_refl eq_refl eq_refl eq_refl eq_refl eq_refl).
  - exact (update_sequence_field Demo.modules 0
             (Demo.store (VList [VInt 1; VInt 2; VInt 3])
                         (VList [VInt 4; VInt 5; VInt 6]))
             0 1 Demo.Cfg
             [("field", VList [VInt 1; VInt 2; VInt 3])] "field"
             (VList [VInt 4; VInt 5; VInt 6]) (VList [VInt 1; VInt 2; VInt 3]) 3 3 ""
             eq_refl eq_refl eq_refl eq_refl eq_refl eq_refl).
Defined.

(** C4 as stated fails: an empty current value does not waive the length
    check, a two-element list is refused for a field that holds [[]]. *)
Lemma update_empty_sequence_checked :
  let h := Demo.store (VList []) (VList [VInt 1; VInt 2]) in
  update_class_from_dict Demo.modules 1 (VRef 0) (VRef 1) "" h
  = Raise (ValueError (MsgIncorrectLength "/field" 0 2)) h.
Proof. reflexivity. Qed.

(** For a current value [None] the length is asked of [None] before the
    comparison with [None] is reached, and the merge stops on the
    interpreter's [TypeError]. *)
Lemma update_none_sequence_TypeError :
  let h := Demo.store VNone (VList [VInt 1; VInt 2]) in
  update_class_from_dict Demo.modules 1 (VRef 0) (VRef 1) "" h
  = Raise (TypeError (MsgNoLen TNoneType)) h.
Proof. reflexivity. Qed.

(** ** No rollback *)

Lemma for_each_app {A} (xs ys : list A) body h :
  for_each (xs ++ ys) body h
  = match for_each xs body h with
    | Ok _ h1 => for_each ys body h1
    | Raise e h1 => Raise e h1
    end.
Proof.
  revert h. induction xs as [|x xs IH]; intros h; [reflexivity|].
  cbn [app for_each]. unfold bind.
  destruct (body x h); [apply IH | reflexivity].
Qed.

(** An entry that fails leaves the store as the entries before it made it. *)
Lemma update_failure_keeps_store modules depth obj ld _ns h items1 entry items2
    h1 e h2 :
  h !! ld = Some (HDict (items1 ++ entry :: items2)) ->
  for_each items1
    (update_entry modules (update_class_from_dict modules depth) obj _ns) h
    = Ok tt h1 ->
  update_entry modules (update_class_from_dict modules depth) obj _ns entry h1
    = Raise e h2 ->
  update_class_from_dict modules (S depth) obj (VRef ld) _ns h = Raise e h2.
Proof.
  intros Hld H1 H2. rewrite update_class_from_dict_eq.
  unfold bind at 1. unfold dict_items. rewrite Hld.
  rewrite for_each_app, H1. cbn [for_each]. unfold bind. now rewrite H2.
Qed.

(** C9. The merge is not atomic: on an object with [a = 1] and [b = 2], the
    mapping [{"a": 5, "b": "x"}] fails at [b] with the type-mismatch error,
    and the store in which the error propagates has [a = 5]. *)
Theorem update_class_from_dict_not_atomic :
  exists (h h' : heap) (obj data : pyval) (e : exn),
    update_class_from_dict Demo.modules 1 obj data "" h = Raise e h'
    /\ e = ValueError (MsgIncorrectType "/b" TInt TStr)
    /\ getattr obj "a" h = Ok (VInt 1) h
    /\ getattr obj "a" h' = Ok (VInt 5) h'
    /\ getattr obj "b" h' = Ok (VInt 2) h'.
Proof.
  exists Demo.two_fields,
    [HInst Demo.Cfg [("a", VInt 5); ("b", VInt 2)];
     HDict [("a", VInt 5); ("b", VStr "x")]],
    (VRef 0), (VRef 1), (ValueError (MsgIncorrectType "/b" TInt TStr)).
  split; [|repeat split].
  apply (update_failure_keeps_store _ _ _ _ _ _ [("a", VInt 5)] ("b", VStr "x") []
           [HInst Demo.Cfg [("a", VInt 5); ("b", VInt 2)];
            HDict [("a", VInt 5); ("b", VStr "x")]]); reflexivity.
Qed.

(** ** [update_dict] over a base entry that is not a mapping *)

(** C8. When [base] binds a key to a scalar or sequence and [overlay] binds
    it to a mapping whose first entry is a scalar or sequence, the entry of
    [base] is not overwritten: [update_dict] recurses into the value of
    [base] and stops on the interpreter's [TypeError] for the item assignment,
    [base] being as it was.  So it is with [base = {"a": 1}] and
    [overlay = {"a": {"b": 2}}]. *)
Theorem update_dict_scalar_base_TypeError (depth : nat) (h : heap)
    (lb lo lv : loc) (bitems rest : list (string * pyval))
    (keyname k : string) (cur x : pyval) :
  h !! lb = Some (HDict bitems) ->
  assoc_get keyname bitems = Some cur ->
  is_scalar_or_sequence cur = true ->
  h !! lo = Some (HDict [(keyname, VRef lv)]) ->
  h !! lv = Some (HDict ((k, x) :: rest)) ->
  is_scalar_or_sequence x = true ->
  exists h',
    update_dict (S (S depth)) (VRef lb) (VRef lo) h
    = Raise (TypeError (MsgNoItem (type_of h cur))) h'
    /\ h' !! lb = Some (HDict bitems).
Proof.
  intros Hlb Hcur Hsc Hlo Hlv Hx.
  exists (h ++ [HDict []]). split; [|now apply lookup_app_l_Some].
  rewrite update_dict_eq. unfold bind at 1. unfold bind at 1.
  unfold dict_items at 1. rewrite Hlo.
  cbn [for_each]. unfold bind at 1. unfold update_dict_entry at 1.
  unfold bind at 1. unfold get_heap at 1.
  assert (is_mapping h (VRef lv) = true) as -> by (simpl; now rewrite Hlv).
  unfold bind at 1. unfold dict_get_method at 1. rewrite Hlb.
  unfold bind at 1. unfold dict_new at 1.
  unfold bind at 1. unfold dict_get at 1.
  rewrite (lookup_app_l_Some _ _ _ _ Hlb), Hcur.
  unfold bind at 1. rewrite update_dict_eq.
  unfold bind at 1. unfold bind at 1. unfold dict_items at 1.
  rewrite (lookup_app_l_Some _ _ _ _ Hlv).
  cbn [for_each]. unfold bind at 1. unfold update_dict_entry at 1.
  unfold bind at 1. unfold get_heap at 1.
  assert (is_mapping (h ++ [HDict []]) x = false) as ->
    by (destruct x; try discriminate; reflexivity).
  destruct cur; try discriminate; reflexivity.
Qed.

Lemma update_dict_scalar_base_TypeError_witness :
  exists h',
    update_dict 2 (VRef 0) (VRef 1) Demo.scalar_base
    = Raise (TypeError (MsgNoItem TInt)) h'
    /\ h' !! 0 = Some (HDict [("a", VInt 1)]).
Proof.
  exact (update_dict_scalar_base_TypeError 0 Demo.scalar_base 0 1 2
           [("a", VInt 1)] [] "a" "b" (VInt 1) (VInt 2)
           eq_refl eq_refl eq_refl eq_refl eq_refl eq_refl).
Defined.

(** ** [class_to_dict] builds fresh mappings without invocables at their keys *)

Lemma extends_trans h1 h2 h3 : extends h1 h2 -> extends h2 h3 -> extends h1 h3.
Proof.
  intros [L1 E1] [L2 E2]. split; [lia|].
  intros l Hl. rewrite E2 by lia. now apply E1.
Qed.

Lemma extends_insert h b o : length h <= b -> forall h', extends h h' ->
  extends h (<[b := o]> h').
Proof.
  intros Hb h' [L E]. split; [rewrite length_insert; lia|].
  intros l Hl. rewrite list_lookup_insert_ne by lia. now apply E.
Qed.

Lemma extends_app h new : extends h (h ++ new).
Proof.
  split; [rewrite length_app; lia|]. intros l Hl. now apply lookup_app_l.
Qed.

Lemma clean_weaken b b' x : b <= b' -> clean b' x -> clean b x.
Proof. destruct x; simpl; auto; lia. Qed.

Lemma assoc_set_Forall (P : string * pyval -> Prop) k v d :
  P (k, v) -> Forall P d -> Forall P (assoc_set k v d).
Proof.
  intros Hk. induction 1 as [|[k' v'] d Hx Hd IH]; simpl.
  - repeat constructor; assumption.
  - destruct (String.eqb k k'); constructor; auto.
Qed.

Lemma fresh_dicts_setitem b h k x h' :
  fresh_dicts b h -> b < length h -> clean b x ->
  setitem (VRef b) k x h = Ok tt h' ->
  fresh_dicts b h' /\ length h' = length h
  /\ (forall l, l <> b -> h' !! l = h !! l).
Proof.
  intros HF Hb Hx. unfold setitem.
  destruct (h !! b) as [[items|]|] eqn:E; try discriminate.
  intros [= <-]. split; [|split].
  - intros l o Hl. destruct (decide (l = b)) as [->|Hne].
    + rewrite list_lookup_insert_eq by assumption. intros [= <-].
      destruct (HF b _ (le_n _) E) as (items' & [= <-] & Hall).
      eexists; split; [reflexivity|]. now apply assoc_set_Forall.
    + rewrite list_lookup_insert_ne by auto. now apply HF.
  - apply length_insert.
  - intros l Hne. now apply list_lookup_insert_ne.
Qed.

Lemma class_to_dict_fresh depth : forall obj h d h',
  class_to_dict depth obj h = Ok d h' ->
  d = VRef (length h) /\ extends h h' /\ length h < length h'
  /\ fresh_dicts (length h) h'.
Proof.
  induction depth as [|depth IH]; intros obj h d h'; [discriminate|].
  rewrite class_to_dict_eq. unfold bind at 1. unfold get_heap at 1.
  unfold bind at 1.
  destruct ((if is_mapping h obj then dict_items obj else dunder_dict_items obj) h)
    as [obj_dict h0|] eqn:Eitems; [|discriminate].
  assert (h0 = h) as ->.
  { destruct (is_mapping h obj); [unfold dict_items in Eitems|unfold dunder_dict_items in Eitems];
      destruct obj; try discriminate; try congruence;
      destruct (h !! l) as [[]|]; congruence. }
  unfold bind at 1. unfold dict_new at 1. unfold bind at 1.
  set (b := length h).
  destruct (for_each obj_dict _ _) as [[] h2|] eqn:Eloop; [|discriminate].
  unfold ret. intros [= <- <-].
  assert (Hloop : forall items h1 h2,
    for_each items (class_to_dict_entry (class_to_dict depth) (VRef b)) h1 = Ok tt h2 ->
    extends h h1 -> b < length h1 -> fresh_dicts b h1 ->
    extends h h2 /\ b < length h2 /\ fresh_dicts b h2).
  { clear Eloop h2 Eitems obj_dict.
    induction items as [|[key value] items IHitems]; intros h1 h2.
    { intros [= <-]. auto. }
    rewrite for_each_cons. unfold bind at 1.
    destruct (class_to_dict_entry _ _ _ h1) as [[] hm|] eqn:Eentry; [|discriminate].
    intros Hrest Hext Hlen HF.
    cut (extends h hm /\ b < length hm /\ fresh_dicts b hm).
    { intros (? & ? & ?). eapply IHitems; eauto. }
    clear Hrest IHitems. unfold class_to_dict_entry in Eentry.
    destruct (startswith "__" key); [injection Eentry as <-; auto|].
    unfold bind at 1 in Eentry. unfold get_heap at 1 in Eentry.
    destruct (callable h1 value) eqn:Ecall.
    - unfold bind, qualified_name in Eentry.
      destruct value; try discriminate.
      destruct (fresh_dicts_setitem b h1 key (VStr _) hm HF Hlen I Eentry)
        as (HF' & Hl' & Hne).
      split; [|split; [lia|assumption]].
      destruct Hext as [L E]. split; [lia|].
      intros l Hl. rewrite Hne by (unfold b; lia). now apply E.
    - destruct (has_dict h1 value || is_mapping h1 value) eqn:Enest.
      + unfold bind at 1 in Eentry.
        destruct (class_to_dict depth value h1) as [sub hs|] eqn:Esub; [|discriminate].
        destruct (IH _ _ _ _ Esub) as (-> & Hexts & Hlens & HFs).
        assert (HFb : fresh_dicts b hs).
        { intros l o Hl Hlook. destruct (decide (l < length h1)) as [Hlt|Hge].
          - rewrite (proj2 Hexts) in Hlook by assumption. now apply (HF l).
          - destruct (HFs l o ltac:(lia) Hlook) as (items' & -> & Hall).
            eexists; split; [reflexivity|].
            eapply Forall_impl; [exact Hall|]. intros kx. apply clean_weaken. lia. }
        destruct (fresh_dicts_setitem b hs key (VRef (length h1)) hm HFb
                    ltac:(lia) ltac:(simpl; lia) Eentry) as (HF' & Hl' & Hne).
        split; [|split; [lia|assumption]].
        destruct Hext as [L E]. destruct Hexts as [Ls Es]. split; [lia|].
        intros l Hl. rewrite Hne by (unfold b; lia). rewrite Es by lia. now apply E.
      + assert (Hclean : clean b value).
        { apply orb_false_iff in Enest as [Hd Hm].
          destruct value; simpl in *; try exact I; try discriminate.
          destruct (h1 !! l) as [[]|] eqn:El; try discriminate.
          apply lookup_ge_None_1 in El. lia. }
        destruct (fresh_dicts_setitem _ _ _ _ _ HF Hlen Hclean Eentry) as (HF' & Hl' & Hne).
        split; [|split; [lia|assumption]].
        destruct Hext as [L E]. split; [lia|].
        intros l Hl. rewrite Hne by (unfold b; lia). now apply E. }
  destruct (Hloop _ _ _ Eloop) as (Hext & Hlen & HF).
  - apply extends_app.
  - rewrite length_app. simpl. unfold b. lia.
  - intros l o Hl Hlook. assert (l = b) as ->.
    { apply lookup_lt_Some in Hlook. rewrite length_app in Hlook. simpl in Hlook.
      unfold b in *. lia. }
    unfold b in Hlook. rewrite list_lookup_middle in Hlook by reflexivity.
    injection Hlook as <-. eexists; split; [reflexivity|constructor].
  - repeat split; try assumption; apply Hext.
Qed.

Lemma at_keys_clean b h : fresh_dicts b h ->
  forall v x, at_keys h v x -> clean b v -> clean b x.
Proof.
  intros HF v x Htc. induction Htc as [v x Hstep|v y x Hstep _ IH]; intros Hv.
  - destruct Hstep as (l & items & k & -> & Hl & Hin).
    destruct (HF l _ Hv Hl) as (items' & [= <-] & Hall).
    rewrite Forall_forall in Hall. exact (Hall _ Hin).
  - apply IH. destruct Hstep as (l & items & k & -> & Hl & Hin).
    destruct (HF l _ Hv Hl) as (items' & [= <-] & Hall).
    rewrite Forall_forall in Hall. exact (Hall _ Hin).
Qed.

Lemma clean_not_callable b h x : fresh_dicts b h -> clean b x -> callable h x = false.
Proof.
  intros HF Hx. destruct x; simpl in *; try reflexivity; [contradiction|].
  destruct (h !! l) as [o|] eqn:E; [|reflexivity].
  destruct (HF l o Hx E) as (items & -> & _). reflexivity.
Qed.

(** ** Insertion-ordered dictionaries *)

Lemma assoc_get_set_eq k v d : assoc_get k (assoc_set k v d) = Some v.
Proof.
  induction d as [|[k' v'] d IH]; simpl.
  - now rewrite String.eqb_refl.
  - destruct (String.eqb k k') eqn:E; simpl; [now rewrite String.eqb_refl|].
    now rewrite E.
Qed.

Lemma assoc_get_set_ne k k' v d :
  k <> k' -> assoc_get k (assoc_set k' v d) = assoc_get k d.
Proof.
  intros Hne. induction d as [|[k0 v0] d IH]; simpl.
  - apply String.eqb_neq in Hne. now rewrite Hne.
  - destruct (String.eqb k' k0) eqn:E; simpl.
    + apply String.eqb_eq in E. subst k0.
      apply String.eqb_neq in Hne. now rewrite Hne.
    + now rewrite IH.
Qed.

Lemma keys_assoc_set_present k v d :
  k ∈ keys d -> keys (assoc_set k v d) = keys d.
Proof.
  induction d as [|[k' v'] d IH]; simpl; intros Hin.
  - inversion Hin.
  - destruct (String.eqb k k') eqn:E; simpl.
    + apply String.eqb_eq in E. now subst.
    + f_equal. apply IH. apply elem_of_cons in Hin as [->|]; [|assumption].
      now rewrite String.eqb_refl in E.
Qed.

Lemma elem_of_keys k v d : (k, v) ∈ d -> k ∈ keys d.
Proof.
  induction d as [|[k' v'] d IH]; intros Hin; [inversion Hin|].
  apply elem_of_cons in Hin as [[= <- <-]|Hin]; simpl.
  - apply list_elem_of_here.
  - apply list_elem_of_further. auto.
Qed.

Lemma assoc_get_Some_keys k v d : assoc_get k d = Some v -> k ∈ keys d.
Proof.
  induction d as [|[k' v'] d IH]; simpl; [discriminate|].
  destruct (String.eqb k k') eqn:E.
  - apply String.eqb_eq in E as ->. intros _. apply list_elem_of_here.
  - intros H. apply list_elem_of_further. auto.
Qed.

Lemma assoc_get_None_keys k d : assoc_get k d = None <-> k ∉ keys d.
Proof.
  induction d as [|[k' v'] d IH]; simpl.
  - split; [intros _ H; inversion H | reflexivity].
  - destruct (String.eqb k k') eqn:E.
    + apply String.eqb_eq in E as ->. split; [discriminate|].
      intros H. exfalso. apply H, list_elem_of_here.
    + apply String.eqb_neq in E. rewrite IH. rewrite elem_of_cons. tauto.
Qed.

(** ** Decoding the entries of a mapping field *)

Lemma string_to_callable_result modules name h r :
  _string_to_callable modules name h = r -> final_heap r = h.
Proof.
  intros <-. unfold _string_to_callable, try_except_AttributeError, bind, str_split.
  destruct name; try reflexivity.
  destruct (split ":" s) as [|m [|a [|? ?]]]; try reflexivity.
  unfold import_module, raise, ret.
  destruct (startswith "." m); [reflexivity|].
  destruct (String.eqb m ""); [reflexivity|].
  destruct (modules m) as [md|]; [|reflexivity].
  unfold module_getattr, ret, raise, get_heap.
  destruct (assoc_get a md); [|reflexivity].
  destruct (callable h p); reflexivity.
Qed.

Lemma string_to_callable_Ok modules name h f h' :
  _string_to_callable modules name h = Ok f h' ->
  h' = h /\ is_str name = true /\ callable h f = true.
Proof.
  intros H. split; [exact (string_to_callable_result _ _ _ _ H)|].
  revert H. unfold _string_to_callable, try_except_AttributeError, bind, str_split.
  destruct name; try discriminate.
  destruct (split ":" s) as [|m [|a [|? ?]]]; try discriminate.
  unfold import_module, raise, ret.
  destruct (startswith "." m); [discriminate|].
  destruct (String.eqb m ""); [discriminate|].
  destruct (modules m) as [md|]; [|discriminate].
  unfold module_getattr, ret, raise, get_heap.
  destruct (assoc_get a md); [|discriminate].
  destruct (callable h p) eqn:E; [|discriminate].
  intros [= <- _]. auto.
Qed.

(** Decoding depends on the store only through [callable]. *)
Lemma string_to_callable_stable modules name h h2 f :
  (forall x, callable h2 x = callable h x) ->
  _string_to_callable modules name h = Ok f h ->
  _string_to_callable modules name h2 = Ok f h2.
Proof.
  intros Hc. unfold _string_to_callable, try_except_AttributeError, bind, str_split.
  destruct name; try discriminate.
  destruct (split ":" s) as [|m [|a [|? ?]]]; try discriminate.
  unfold import_module, raise, ret.
  destruct (startswith "." m); [discriminate|].
  destruct (String.eqb m ""); [discriminate|].
  destruct (modules m) as [md|]; [|discriminate].
  unfold module_getattr, ret, raise, get_heap.
  destruct (assoc_get a md); [|discriminate].
  rewrite Hc. destruct (callable h p); [|discriminate].
  now intros [= <-].
Qed.

Lemma callable_insert_dict h l items items' x :
  h !! l = Some (HDict items) ->
  callable (<[l := HDict items']> h) x = callable h x.
Proof.
  intros Hl. destruct x; try reflexivity. simpl.
  destruct (decide (l0 = l)) as [->|Hne].
  - rewrite list_lookup_insert_eq by (eapply lookup_lt_Some; eauto). now rewrite Hl.
  - now rewrite list_lookup_insert_ne by auto.
Qed.

Lemma callable_insert_inst h l c attrs attrs' x :
  h !! l = Some (HInst c attrs) ->
  callable (<[l := HInst c attrs']> h) x = callable h x.
Proof.
  intros Hl. destruct x; try reflexivity. simpl.
  destruct (decide (l0 = l)) as [->|Hne].
  - rewrite list_lookup_insert_eq by (eapply lookup_lt_Some; eauto). now rewrite Hl.
  - now rewrite list_lookup_insert_ne by auto.
Qed.

(** The loop of lines 83 to 85 over the entries of the current mapping, the
    incoming value being the dictionary at [lv]. *)
Lemma decode_entries_run modules h lv : forall cur_items,
  NoDup (keys cur_items) ->
  forall vitems hc,
  hc !! lv = Some (HDict vitems) ->
  (forall x, callable hc x = callable h x) ->
  (forall k v, (k, v) ∈ cur_items -> callable h v = true ->
     exists s f, assoc_get k vitems = Some s
                 /\ _string_to_callable modules s h = Ok f h) ->
  exists vitems',
    for_each cur_items (fun '(k, v) =>
        h' <- get_heap ;;
        if callable h' v then
          entry <- getitem (VRef lv) k ;;
          c <- _string_to_callable modules entry ;;
          setitem (VRef lv) k c
        else ret tt) hc
    = Ok tt (<[lv := HDict vitems']> hc)
    /\ keys vitems' = keys vitems
    /\ (forall k v, (k, v) ∈ cur_items -> callable h v = true ->
          exists s f, assoc_get k vitems = Some s
                      /\ _string_to_callable modules s h = Ok f h
                      /\ assoc_get k vitems' = Some f)
    /\ (forall k, (forall v, (k, v) ∈ cur_items -> callable h v = false) ->
          assoc_get k vitems' = assoc_get k vitems).
Proof.
  induction cur_items as [|[k0 v0] rest IH]; intros Hnd vitems hc Hlv Hcall Hpre.
  - exists vitems. split; [|split; [reflexivity|split]].
    + simpl. unfold ret. now rewrite list_insert_id.
    + intros k v Hin. inversion Hin.
    + reflexivity.
  - apply NoDup_cons in Hnd as [Hk0 Hnd].
    rewrite for_each_cons. unfold bind at 1. unfold bind at 1. unfold get_heap at 1.
    rewrite Hcall. destruct (callable h v0) eqn:Ev0.
    + destruct (Hpre k0 v0 (list_elem_of_here _ _) Ev0) as (s & f & Hs & Hdec).
      unfold bind at 1. unfold getitem at 1. rewrite Hlv, Hs.
      unfold bind at 1.
      rewrite (string_to_callable_stable _ _ _ hc _ Hcall Hdec).
      unfold setitem at 1. rewrite Hlv.
      set (hc1 := <[lv := HDict (assoc_set k0 f vitems)]> hc).
      assert (Hlt : lv < length hc) by (eapply lookup_lt_Some; eauto).
      destruct (IH Hnd (assoc_set k0 f vitems) hc1) as (vitems' & Hrun & Hkeys & Hdone & Hother).
      * unfold hc1. now rewrite list_lookup_insert_eq.
      * intros x. unfold hc1. rewrite (callable_insert_dict _ _ _ _ _ Hlv). apply Hcall.
      * intros k v Hin Hc. destruct (Hpre k v (list_elem_of_further _ _ _ Hin) Hc)
          as (s' & f' & Hs' & Hdec').
        exists s', f'. split; [|assumption].
        rewrite assoc_get_set_ne; [assumption|].
        intros ->. apply Hk0. eapply elem_of_keys; eauto.
      * exists vitems'. split; [|split; [|split]].
        -- rewrite Hrun. unfold hc1. now rewrite list_insert_insert_eq.
        -- rewrite Hkeys. apply keys_assoc_set_present.
           eapply assoc_get_Some_keys; eauto.
        -- intros k v Hin Hc. apply elem_of_cons in Hin as [[= -> ->]|Hin].
           ++ exists s, f. repeat split; try assumption.
              rewrite Hother; [apply assoc_get_set_eq|].
              intros v Hin. exfalso. apply Hk0. eapply elem_of_keys; eauto.
           ++ destruct (Hdone k v Hin Hc) as (s' & f' & Hs' & Hdec' & Hget).
              exists s', f'. repeat split; try assumption.
              rewrite assoc_get_set_ne in Hs'; [assumption|].
              intros ->. apply Hk0. eapply elem_of_keys; eauto.
        -- intros k Hk. rewrite Hother.
           ++ apply assoc_get_set_ne. intros ->.
              specialize (Hk v0 (list_elem_of_here _ _)). congruence.
           ++ intros v Hin. apply Hk. now apply list_elem_of_further.
    + unfold ret at 1.
      destruct (IH Hnd vitems hc Hlv Hcall) as (vitems' & Hrun & Hkeys & Hdone & Hother).
      * intros k v Hin. apply Hpre. now apply list_elem_of_further.
      * exists vitems'. split; [exact Hrun|split; [exact Hkeys|split]].
        -- intros k v Hin Hc. apply elem_of_cons in Hin as [[= -> ->]|Hin];
             [congruence|]. eauto.
        -- intros k Hk. apply Hother. intros v Hin. apply Hk.
           now apply list_elem_of_further.
Qed.

(** ** A field that holds a mapping *)

Lemma mapping_field_run modules depth h lo ld lc lv c attrs key
    cur_items vitems _ns :
  h !! lo = Some (HInst c attrs) ->
  h !! ld = Some (HDict [(key, VRef lv)]) ->
  assoc_get key attrs = Some (VRef lc) ->
  h !! lc = Some (HDict cur_items) ->
  h !! lv = Some (HDict vitems) ->
  NoDup (keys cur_items) ->
  (forall k v, (k, v) ∈ cur_items -> callable h v = true ->
     exists s f, assoc_get k vitems = Some s
                 /\ _string_to_callable modules s h = Ok f h) ->
  exists vitems',
    update_class_from_dict modules (S depth) (VRef lo) (VRef ld) _ns h
    = Ok tt (<[lo := HInst c (assoc_set key (VRef lv) attrs)]>
               (<[lv := HDict vitems']> h))
    /\ keys vitems' = keys vitems
    /\ (forall k v, (k, v) ∈ cur_items -> callable h v = true ->
          exists s f, assoc_get k vitems = Some s
                      /\ _string_to_callable modules s h = Ok f h
                      /\ assoc_get k vitems' = Some f)
    /\ (forall k, (forall v, (k, v) ∈ cur_items -> callable h v = false) ->
          assoc_get k vitems' = assoc_get k vitems).
Proof.
  intros Hlo Hld Hkey Hlc Hlv Hnd Hpre.
  destruct (decode_entries_run modules h lv cur_items Hnd vitems h Hlv
              (fun _ => eq_refl) Hpre) as (vitems' & Hrun & Hrest).
  exists vitems'. split; [|exact Hrest].
  rewrite (update_single_entry _ _ _ _ _ _ _ _ Hld).
  unfold update_entry. unfold bind at 1. unfold get_heap at 1.
  unfold hasattr. rewrite Hlo, Hkey.
  unfold bind at 1. unfold getattr at 1. rewrite Hlo, Hkey.
  unfold is_mapping at 1. rewrite Hlc.
  unfold bind at 1. unfold bind at 1. unfold dict_items at 1. rewrite Hlc.
  rewrite Hrun. unfold setattr.
  assert (lo <> lv) by (intros ->; congruence).
  rewrite list_lookup_insert_ne by auto. now rewrite Hlo.
Qed.

(** C2, as the code has it. When the field [key] of [obj] holds a generic
    mapping and [value] is a mapping that has, for every invocable-valued key
    of the current mapping, an entry that decodes to an invocable, then
    [update_class_from_dict(obj, {key: value})] first overwrites each of those
    entries of [value] with its decoded invocable, leaving the other entries
    and the keys of [value] as they are, and then makes the field refer to
    [value] itself: the keys of the old mapping that [value] lacks are gone. *)
Theorem update_mapping_field (modules : string -> option pymodule)
    (depth : nat) (h : heap) (lo ld lc lv : loc) (c : pyclass)
    (attrs cur_items vitems : list (string * pyval)) (key _ns : string) :
  h !! lo = Some (HInst c attrs) ->
  h !! ld = Some (HDict [(key, VRef lv)]) ->
  assoc_get key attrs = Some (VRef lc) ->
  h !! lc = Some (HDict cur_items) ->
  h !! lv = Some (HDict vitems) ->
  NoDup (keys cur_items) ->
  (forall k v, (k, v) ∈ cur_items -> callable h v = true ->
     exists s f, assoc_get k vitems = Some s
                 /\ _string_to_callable modules s h = Ok f h) ->
  exists vitems',
    update_class_from_dict modules (S depth) (VRef lo) (VRef ld) _ns h
    = Ok tt (<[lo := HInst c (assoc_set key (VRef lv) attrs)]>
               (<[lv := HDict vitems']> h))
    /\ keys vitems' = keys vitems
    /\ (forall k v, (k, v) ∈ cur_items -> callable h v = true ->
          exists s f, assoc_get k vitems = Some s
                      /\ _string_to_callable modules s h = Ok f h
                      /\ assoc_get k vitems' = Some f)
    /\ (forall k, (forall v, (k, v) ∈ cur_items -> callable h v = false) ->
          assoc_get k vitems' = assoc_get k vitems)
    /\ (forall k, k ∈ keys cur_items -> k ∉ keys vitems ->
          assoc_get k vitems' = None).
Proof.
  intros Hlo Hld Hkey Hlc Hlv Hnd Hpre.
  destruct (mapping_field_run modules depth h lo ld lc lv c attrs key
              cur_items vitems _ns Hlo Hld Hkey Hlc Hlv Hnd Hpre)
    as (vitems' & Hrun & Hkeys & Hdone & Hother).
  exists vitems'. repeat split; try assumption.
  intros k _ Hk. apply assoc_get_None_keys. now rewrite Hkeys.
Qed.

Lemma demo_mapping_entries_decode incoming :
  assoc_get "f" incoming = Some (VStr "math:sin") ->
  forall k v,
    (k, v) ∈ [("f", VFunc "math" "sin"); ("a", VInt 1); ("b", VInt 2)] ->
    callable (Demo.mapping_field incoming) v = true ->
    exists s f, assoc_get k incoming = Some s
      /\ _string_to_callable Demo.modules s (Demo.mapping_field incoming)
         = Ok f (Demo.mapping_field incoming).
Proof.
  intros Hf k v Hin Hc.
  repeat (apply elem_of_cons in Hin as [[= -> ->]|Hin]); try discriminate.
  - exists (VStr "math:sin"), (VFunc "math" "sin"). split; [assumption|reflexivity].
  - inversion Hin.
Qed.

Lemma update_mapping_field_witness :
  exists vitems',
    update_class_from_dict Demo.modules 1 (VRef 0) (VRef 1) ""
      (Demo.mapping_field [("f", VStr "math:sin"); ("a", VInt 9)])
    = Ok tt [HInst Demo.Cfg [("field", VRef 3)];
             HDict [("field", VRef 3)];
             HDict [("f", VFunc "math" "sin"); ("a", VInt 1); ("b", VInt 2)];
             HDict vitems']
    /\ assoc_get "f" vitems' = Some (VFunc "math" "sin")
    /\ assoc_get "a" vitems' = Some (VInt 9)
    /\ assoc_get "b" vitems' = None.
Proof.
  destruct (update_mapping_field Demo.modules 0
              (Demo.mapping_field [("f", VStr "math:sin"); ("a", VInt 9)])
              0 1 2 3 Demo.Cfg [("field", VRef 2)]
              [("f", VFunc "math" "sin"); ("a", VInt 1); ("b", VInt 2)]
              [("f", VStr "math:sin"); ("a", VInt 9)] "field" ""
              eq_refl eq_refl eq_refl eq_refl eq_refl
              ltac:(compute_done)
              (demo_mapping_entries_decode
                 [("f", VStr "math:sin"); ("a", VInt 9)] eq_refl))
    as (vitems' & Hrun & Hkeys & Hdone & Hother & Hgone).
  exists vitems'. split; [exact Hrun|]. split; [|split].
  - destruct (Hdone "f" (VFunc "math" "sin") ltac:(apply list_elem_of_here) eq_refl)
      as (s & f & Hs & Hdec & Hget).
    cbv in Hs. injection Hs as <-. cbv in Hdec.
    assert (f = VFunc "math" "sin") as -> by congruence. exact Hget.
  - rewrite Hother; [reflexivity|].
    intros v Hin. apply list_elem_of_In in Hin. simpl in Hin.
    destruct Hin as [H|[H|[H|[]]]]; inversion H; reflexivity.
  - apply Hgone; compute_done.
Defined.

(** C2 as stated fails: when [value] has no entry for an invocable-valued key
    of the current mapping, the entry is not skipped; the lookup [value[k]]
    raises [KeyError] and the field is not replaced. *)
Lemma mapping_field_missing_entry :
  let h := Demo.mapping_field [("a", VInt 9)] in
  update_class_from_dict Demo.modules 1 (VRef 0) (VRef 1) "" h
  = Raise (KeyError (MsgMissing "f")) h.
Proof. reflexivity. Qed.

(** C10. When the field holds a generic mapping with an invocable at key [k]
    and the merge of [{key: value}] succeeds, the entry at [k] of the caller's
    mapping [value], which held the encoded string [s], holds afterwards the
    invocable [f] that [_string_to_callable] returns for [s]: the mapping was
    written in place, and the field refers to that same mapping. *)
Theorem update_mutates_incoming_mapping (modules : string -> option pymodule)
    (depth : nat) (h : heap) (lo ld lc lv : loc) (c : pyclass)
    (attrs cur_items vitems : list (string * pyval)) (key _ns k : string)
    (v : pyval) :
  h !! lo = Some (HInst c attrs) ->
  h !! ld = Some (HDict [(key, VRef lv)]) ->
  assoc_get key attrs = Some (VRef lc) ->
  h !! lc = Some (HDict cur_items) ->
  h !! lv = Some (HDict vitems) ->
  NoDup (keys cur_items) ->
  (forall k v, (k, v) ∈ cur_items -> callable h v = true ->
     exists s f, assoc_get k vitems = Some s
                 /\ _string_to_callable modules s h = Ok f h) ->
  (k, v) ∈ cur_items -> callable h v = true ->
  exists h' s f,
    update_class_from_dict modules (S depth) (VRef lo) (VRef ld) _ns h = Ok tt h'
    /\ getitem (VRef lv) k h = Ok s h
    /\ _string_to_callable modules s h = Ok f h
    /\ getitem (VRef lv) k h' = Ok f h'
    /\ is_str s = true /\ callable h' f = true /\ s <> f
    /\ getattr (VRef lo) key h' = Ok (VRef lv) h'.
Proof.
  intros Hlo Hld Hkey Hlc Hlv Hnd Hpre Hin Hc.
  destruct (mapping_field_run modules depth h lo ld lc lv c attrs key
              cur_items vitems _ns Hlo Hld Hkey Hlc Hlv Hnd Hpre)
    as (vitems' & Hrun & Hkeys & Hdone & Hother).
  destruct (Hdone k v Hin Hc) as (s & f & Hs & Hdec & Hget).
  destruct (string_to_callable_Ok _ _ _ _ _ Hdec) as (_ & Hstr & Hcf).
  assert (Hne : lo <> lv) by (intros ->; congruence).
  assert (Hlo' : lo < length h) by (eapply lookup_lt_Some; eauto).
  assert (Hlv' : lv < length h) by (eapply lookup_lt_Some; eauto).
  eexists _, s, f. split; [exact Hrun|]. repeat split.
  - unfold getitem. now rewrite Hlv, Hs.
  - exact Hdec.
  - unfold getitem. rewrite list_lookup_insert_ne by auto.
    rewrite list_lookup_insert_eq by assumption. now rewrite Hget.
  - assumption.
  - rewrite (callable_insert_inst _ _ _ attrs).
    + now rewrite (callable_insert_dict _ _ _ _ _ Hlv).
    + now rewrite list_lookup_insert_ne by auto.
  - intros ->. destruct f; try discriminate.
  - unfold getattr. rewrite list_lookup_insert_eq by (now rewrite length_insert).
    now rewrite assoc_get_set_eq.
Qed.

Lemma update_mutates_incoming_mapping_witness :
  exists h' s f,
    update_class_from_dict Demo.modules 1 (VRef 0) (VRef 1) ""
      (Demo.mapping_field [("f", VStr "math:sin"); ("a", VInt 9)]) = Ok tt h'
    /\ getitem (VRef 3) "f"
         (Demo.mapping_field [("f", VStr "math:sin"); ("a", VInt 9)])
       = Ok s (Demo.mapping_field [("f", VStr "math:sin"); ("a", VInt 9)])
    /\ _string_to_callable Demo.modules s
         (Demo.mapping_field [("f", VStr "math:sin"); ("a", VInt 9)])
       = Ok f (Demo.mapping_field [("f", VStr "math:sin"); ("a", VInt 9)])
    /\ getitem (VRef 3) "f" h' = Ok f h'
    /\ is_str s = true /\ callable h' f = true /\ s <> f
    /\ getattr (VRef 0) "field" h' = Ok (VRef 3) h'.
Proof.
  exact (update_mutates_incoming_mapping Demo.modules 0
           (Demo.mapping_field [("f", VStr "math:sin"); ("a", VInt 9)])
           0 1 2 3 Demo.Cfg [("field", VRef 2)]
           [("f", VFunc "math" "sin"); ("a", VInt 1); ("b", VInt 2)]
           [("f", VStr "math:sin"); ("a", VInt 9)] "field" "" "f"
           (VFunc "math" "sin")
           eq_refl eq_refl eq_refl eq_refl eq_refl
           ltac:(compute_done)
           (demo_mapping_entries_decode
                 [("f", VStr "math:sin"); ("a", VInt 9)] eq_refl)
           ltac:(apply list_elem_of_here) eq_refl).
Defined.

(** ** Contents and stores *)

Lemma tree_ind' (Q : tree -> Prop) :
  (forall v, Q (TLeaf v)) ->
  (forall items, Forall (fun kt => Q kt.2) items -> Q (TMap items)) ->
  (forall c items, Forall (fun kt => Q kt.2) items -> Q (TObj c items)) ->
  forall t, Q t.
Proof.
  intros Hleaf Hmap Hobj.
  fix IH 1. intros [v|items|c items].
  - apply Hleaf.
  - apply Hmap. induction items as [|[k t] items IHitems]; constructor; auto.
  - apply Hobj. induction items as [|[k t] items IHitems]; constructor; auto.
Qed.

Lemma ser_TMap items : ser (TMap items) = TMap (ser_items items).
Proof.
  reflexivity.
Qed.

Lemma ser_TObj c items : ser (TObj c items) = TMap (ser_items items).
Proof.
  reflexivity.
Qed.

Lemma Forall2_fields_impl {A} (R1 R2 : A -> tree -> Prop)
    (items : list (string * A)) (titems : list (string * tree)) :
  Forall (fun kt => forall v, R1 v kt.2 -> R2 v kt.2) titems ->
  Forall2 (fun kx kt => kx.1 = kt.1 /\ R1 kx.2 kt.2) items titems ->
  Forall2 (fun kx kt => kx.1 = kt.1 /\ R2 kx.2 kt.2) items titems.
Proof.
  intros HF H2. induction H2 as [|kx kt items titems [Hk Hx] _ IH]; constructor.
  - apply Forall_cons in HF as [Ht _]. auto.
  - apply IH. now apply Forall_cons in HF as [_ ?].
Qed.

(** A content is held as long as the objects it goes through are kept. *)
Lemma denotes_frame (P P2 : nat -> Prop) h h2 : forall t v,
  denotes P h v t ->
  (forall l o, P l -> h !! l = Some o -> h2 !! l = Some o) ->
  (forall l, P l -> P2 l) ->
  denotes P2 h2 v t.
Proof.
  induction t as [x|items IH|c items IH] using tree_ind'; intros v Hd Hh HP;
    inversion Hd; subst.
  - now constructor.
  - econstructor; eauto.
    eapply Forall2_fields_impl; [|eassumption].
    eapply Forall_impl; [exact IH|]. intros kt Hkt v Hv. eapply Hkt; eauto.
  - econstructor; eauto.
    eapply Forall2_fields_impl; [|eassumption].
    eapply Forall_impl; [exact IH|]. intros kt Hkt v Hv. eapply Hkt; eauto.
Qed.

Lemma extends_lookup h h' l o : extends h h' -> h !! l = Some o -> h' !! l = Some o.
Proof.
  intros [_ E] Hl. rewrite E; [assumption|]. eapply lookup_lt_Some; eauto.
Qed.

Lemma assoc_set_fresh k v d : k ∉ keys d -> assoc_set k v d = d ++ [(k, v)].
Proof.
  induction d as [|[k' v'] d IH]; simpl; intros Hk; [reflexivity|].
  apply not_elem_of_cons in Hk as [Hne Hk].
  apply String.eqb_neq in Hne. rewrite Hne. now rewrite IH.
Qed.

Lemma keys_app d1 d2 : keys (d1 ++ d2) = keys d1 ++ keys d2.
Proof. apply map_app. Qed.

(** ** [class_to_dict] computes the serialized content *)

Lemma serialize_entry (P : nat -> Prop) depth' b h0 k v tv hc acc :
  serialize_ok tv ->
  denotes P h0 v tv -> serializable tv = true -> height tv < depth' ->
  extends h0 hc -> b < length hc -> length h0 <= b ->
  hc !! b = Some (HDict acc) -> k ∉ keys acc ->
  startswith "__" k = false ->
  exists hf x',
    class_to_dict_entry (class_to_dict depth') (VRef b) (k, v) hc = Ok tt hf
    /\ extends h0 hf /\ b < length hf
    /\ hf !! b = Some (HDict (acc ++ [(k, x')]))
    /\ denotes (fun l => b < l) hf x' (ser tv)
    /\ (forall l o, b < l -> hc !! l = Some o -> hf !! l = Some o).
Proof.
  intros IHt Hd Hser Hh Hext Hb Hb0 Hacc Hk Hdunder.
  unfold class_to_dict_entry. rewrite Hdunder.
  unfold bind at 1. unfold get_heap at 1.
  assert (Hset : forall x hs, hs !! b = Some (HDict acc) ->
            setitem (VRef b) k x hs = Ok tt (<[b := HDict (acc ++ [(k, x)])]> hs)).
  { intros x hs Hs. unfold setitem. rewrite Hs. now rewrite assoc_set_fresh. }
  assert (Hnode : callable hc v = false ->
            has_dict hc v || is_mapping hc v = true -> is_node tv = true ->
    exists hf x',
      (if callable hc v
       then name <- qualified_name v;; setitem (VRef b) k (VStr name)
       else
        if has_dict hc v || is_mapping hc v
        then sub <- class_to_dict depth' v;; setitem (VRef b) k sub
        else setitem (VRef b) k v) hc = Ok tt hf
      /\ extends h0 hf /\ b < length hf
      /\ hf !! b = Some (HDict (acc ++ [(k, x')]))
      /\ denotes (fun l => b < l) hf x' (ser tv)
      /\ (forall l o, b < l -> hc !! l = Some o -> hf !! l = Some o)).
  { intros -> -> Hn.
    destruct (IHt P depth' hc v) as (h' & Hrun & Hext' & Hlen' & Hden'); auto.
    { eapply denotes_frame; [exact Hd| |auto]. intros; eapply extends_lookup; eauto. }
    unfold bind at 1. rewrite Hrun.
    assert (Hb' : h' !! b = Some (HDict acc)) by (eapply extends_lookup; eauto).
    rewrite Hset by assumption. eexists _, _. split; [reflexivity|].
    split; [apply extends_insert; [assumption|]; eapply extends_trans; eauto|].
    split; [rewrite length_insert; lia|].
    split; [apply list_lookup_insert_eq; lia|].
    split.
    + eapply denotes_frame; [exact Hden'| |simpl; intros; lia].
      intros l0 o Hl0 Hlo. simpl in Hl0. rewrite list_lookup_insert_ne by lia. assumption.
    + intros l0 o Hlt Hlo. rewrite list_lookup_insert_ne by lia.
      eapply extends_lookup; eauto. }
  inversion Hd as [x Hleaf|l items titems HP Hl Hitems|l c attrs tattrs HP Hl Hitems]; subst.
  - (* a leaf *)
    clear Hnode. destruct (callable hc v) eqn:Ec.
    + destruct v; try discriminate. unfold bind, qualified_name.
      rewrite Hset by assumption. eexists _, _. split; [reflexivity|].
      split; [now apply extends_insert|]. split; [now rewrite length_insert|].
      split; [now apply list_lookup_insert_eq|]. split; [now constructor|].
      intros l o Hlt Hlo. rewrite list_lookup_insert_ne by lia. assumption.
    + assert (has_dict hc v || is_mapping hc v = false) as ->
        by (destruct v; try discriminate; reflexivity).
      rewrite Hset by assumption. eexists _, _. split; [reflexivity|].
      split; [now apply extends_insert|]. split; [now rewrite length_insert|].
      split; [now apply list_lookup_insert_eq|].
      split; [destruct v; try discriminate; now constructor|].
      intros l o Hlt Hlo. rewrite list_lookup_insert_ne by lia. assumption.
  - (* a mapping *)
    pose proof (extends_lookup _ _ _ _ Hext Hl) as Hl'.
    apply Hnode; simpl; rewrite ?Hl'; reflexivity.
  - (* an object *)
    pose proof (extends_lookup _ _ _ _ Hext Hl) as Hl'.
    simpl in Hser. apply andb_true_iff in Hser as [Hser _].
    apply andb_true_iff in Hser as [Hcall _]. apply negb_true_iff in Hcall.
    apply Hnode; simpl; rewrite ?Hl'; auto.
Qed.

Lemma serialize_loop (P : nat -> Prop) depth' b h0 : forall items titems,
  Forall (fun kt => serialize_ok kt.2) titems ->
  Forall2 (fun kx kt => kx.1 = kt.1 /\ denotes P h0 kx.2 kt.2) items titems ->
  forallb (fun kt => serializable kt.2) titems = true ->
  NoDup (map fst titems) ->
  list_max (map (fun kt => height kt.2) titems) < depth' ->
  forall hc acc tacc,
  extends h0 hc -> b < length hc -> length h0 <= b ->
  hc !! b = Some (HDict acc) ->
  (forall k, k ∈ map fst titems -> k ∉ keys acc) ->
  Forall2 (fun kx kt => kx.1 = kt.1 /\ denotes (fun l => b < l) hc kx.2 kt.2)
    acc tacc ->
  exists hf acc',
    for_each items (class_to_dict_entry (class_to_dict depth') (VRef b)) hc
    = Ok tt hf
    /\ extends h0 hf /\ b < length hf
    /\ hf !! b = Some (HDict acc')
    /\ Forall2 (fun kx kt => kx.1 = kt.1 /\ denotes (fun l => b < l) hf kx.2 kt.2)
         acc' (tacc ++ ser_items titems).
Proof.
  intros items titems IHs H2. revert IHs.
  induction H2 as [|[k v] [k' tv] items titems [Hk Hv] _ IH];
    intros IHs Hser Hnd Hh hc acc tacc Hext Hb Hb0 Hacc Hfresh Hden.
  - exists hc, acc. simpl. rewrite app_nil_r. auto.
  - simpl in Hk. subst k'. simpl in Hv.
    apply Forall_cons in IHs as [IHt IHs]. simpl in IHt.
    simpl in Hser. apply andb_true_iff in Hser as [Hsert Hser].
    simpl in Hnd. apply NoDup_cons in Hnd as [Hknew Hnd].
    simpl in Hh.
    rewrite for_each_cons. unfold bind at 1.
    destruct (startswith "__" k) eqn:Hdunder.
    + unfold class_to_dict_entry at 1. rewrite Hdunder. unfold ret at 1.
      destruct (IH IHs Hser Hnd ltac:(lia) hc acc tacc) as (hf & acc' & Hrun & Hrest);
        auto.
      { intros k0 Hk0. apply Hfresh. simpl. now apply list_elem_of_further. }
      exists hf, acc'. split; [exact Hrun|]. cbn [ser_items]. now rewrite Hdunder.
    + destruct (serialize_entry P depth' b h0 k v tv hc acc) as
        (hm & x' & Hrun & Hextm & Hbm & Haccm & Hdenx & Hkeep); auto; try lia.
      { apply Hfresh. simpl. apply list_elem_of_here. }
      rewrite Hrun.
      destruct (IH IHs Hser Hnd ltac:(lia) hm (acc ++ [(k, x')]) (tacc ++ [(k, ser tv)]))
        as (hf & acc' & Hrun' & Hextf & Hbf & Haccf & Hdenf); auto.
      { intros k0 Hk0. rewrite keys_app. apply not_elem_of_app. split.
        - apply Hfresh. simpl. now apply list_elem_of_further.
        - simpl. intros Hin. apply list_elem_of_singleton in Hin. now subst. }
      { apply Forall2_app.
        - eapply Forall2_impl; [exact Hden|]. intros kx kt [? Hd]. split; [assumption|].
          eapply denotes_frame; [exact Hd|exact Hkeep|auto].
        - constructor; [|constructor]. split; [reflexivity|exact Hdenx]. }
      exists hf, acc'. split; [exact Hrun'|].
      split; [exact Hextf|]. split; [exact Hbf|]. split; [exact Haccf|].
      cbn [ser_items]. rewrite Hdunder. now rewrite <- app_assoc in Hdenf.
Qed.

Lemma serialize_tree : forall t, serialize_ok t.
Proof.
  induction t as [x|titems IH|c titems IH] using tree_ind';
    intros P depth h o Hd Hser Hnode Hh; [discriminate| |].
  - destruct depth as [|depth']; [lia|]. simpl in Hh.
    inversion Hd as [|l items ? HP Hl Hitems|]; subst.
    simpl in Hser. apply andb_true_iff in Hser as [Hnd Hser].
    apply bool_decide_eq_true in Hnd.
    rewrite class_to_dict_eq. unfold bind at 1. unfold get_heap at 1.
    unfold hasattr_class. cbn [negb].
    assert (is_mapping h (VRef l) = true) as -> by (simpl; now rewrite Hl).
    unfold bind at 1. unfold dict_items at 1. rewrite Hl.
    unfold bind at 1. unfold dict_new at 1. unfold bind at 1.
    destruct (serialize_loop P depth' (length h) h items titems IH Hitems Hser Hnd
                ltac:(lia) (h ++ [HDict []]) [] [])
      as (hf & acc' & Hrun & Hext & Hb & Hacc & Hden); auto.
    + apply extends_app.
    + rewrite length_app. simpl. lia.
    + now rewrite list_lookup_middle.
    + intros k _ Hin. inversion Hin.
    + rewrite Hrun. unfold ret. exists hf.
      split; [reflexivity|]. split; [exact Hext|]. split; [exact Hb|].
      rewrite ser_TMap. econstructor; [apply le_n|exact Hacc|].
      eapply Forall2_impl; [exact Hden|]. intros kx kt [? Hdk]. split; [assumption|].
      eapply denotes_frame; [exact Hdk|auto|simpl; intros; lia].
  - destruct depth as [|depth']; [lia|]. simpl in Hh.
    inversion Hd as [| |l c' attrs ? HP Hl Hitems]; subst.
    simpl in Hser. apply andb_true_iff in Hser as [Hnd Hser].
    apply andb_true_iff in Hnd as [_ Hnd].
    apply bool_decide_eq_true in Hnd.
    rewrite class_to_dict_eq. unfold bind at 1. unfold get_heap at 1.
    unfold hasattr_class. cbn [negb].
    assert (is_mapping h (VRef l) = false) as -> by (simpl; now rewrite Hl).
    unfold bind at 1. unfold dunder_dict_items at 1. rewrite Hl.
    unfold bind at 1. unfold dict_new at 1. unfold bind at 1.
    destruct (serialize_loop P depth' (length h) h attrs titems IH Hitems Hser Hnd
                ltac:(lia) (h ++ [HDict []]) [] [])
      as (hf & acc' & Hrun & Hext & Hb & Hacc & Hden); auto.
    + apply extends_app.
    + rewrite length_app. simpl. lia.
    + now rewrite list_lookup_middle.
    + intros k _ Hin. inversion Hin.
    + rewrite Hrun. unfold ret. exists hf.
      split; [reflexivity|]. split; [exact Hext|]. split; [exact Hb|].
      rewrite ser_TObj. econstructor; [apply le_n|exact Hacc|].
      eapply Forall2_impl; [exact Hden|]. intros kx kt [? Hdk]. split; [assumption|].
      eapply denotes_frame; [exact Hdk|auto|simpl; intros; lia].
Qed.

(** ** [class_to_dict] leaves no invocable at a key *)

(** C7, as the code has it. In the mapping that [class_to_dict] returns, no
    value stored at a key, of the mapping itself or of a mapping nested in it
    through keys, is a raw invocable; and when the input holds a content that
    [class_to_dict] can traverse, the mapping holds the serialized content,
    in which every invocable held by a field or entry is its ["module:name"]
    string.  (A sequence is stored as it is, with the invocables it may
    hold.) *)
Theorem class_to_dict_no_invocable_at_keys (depth : nat) (obj : pyval)
    (h : heap) (d : pyval) (h' : heap) :
  class_to_dict depth obj h = Ok d h' ->
  is_mapping h' d = true
  /\ (forall x, at_keys h' d x -> callable h' x = false)
  /\ (forall t, denotes (fun _ => True) h obj t -> serializable t = true ->
       is_node t = true -> height t < depth ->
       denotes (fun _ => True) h' d (ser t)).
Proof.
  intros Hrun. destruct (class_to_dict_fresh _ _ _ _ _ Hrun) as (-> & Hext & Hlen & HF).
  split; [|split].
  - simpl. destruct (lookup_lt_is_Some_2 h' (length h) Hlen) as [o Ho].
    rewrite Ho. destruct (HF _ _ (le_n _) Ho) as (items & -> & _). reflexivity.
  - intros x Hx. apply (clean_not_callable (length h)); [assumption|].
    eapply at_keys_clean; eauto. simpl. lia.
  - intros t Ht Hser Hnode Hh.
    destruct (serialize_tree t _ depth h obj Ht Hser Hnode Hh)
      as (h'' & Hrun' & _ & _ & Hd).
    rewrite Hrun in Hrun'. injection Hrun' as <-.
    eapply denotes_frame; [exact Hd|auto|auto].
Qed.

Lemma class_to_dict_no_invocable_at_keys_witness :
  exists d h', class_to_dict 2 (VRef 0) Demo.callable_in_list = Ok d h'
    /\ is_mapping h' d = true
    /\ (forall x, at_keys h' d x -> callable h' x = false)
    /\ denotes (fun _ => True) h' d
         (TMap [("fns", TLeaf (VList [VFunc "math" "sin"]));
                ("f", TLeaf (VStr "math:sin"))]).
Proof.
  eexists _, _. split; [reflexivity|].
  destruct (class_to_dict_no_invocable_at_keys 2 (VRef 0) Demo.callable_in_list
              _ _ eq_refl) as (Hmap & Hkeys & Hser).
  split; [exact Hmap|]. split; [exact Hkeys|].
  apply (Hser (TObj Demo.Cfg [("fns", TLeaf (VList [VFunc "math" "sin"]));
                              ("f", TLeaf (VFunc "math" "sin"))])).
  - apply (denotes_obj _ _ 0 Demo.Cfg
             [("fns", VList [VFunc "math" "sin"]); ("f", VFunc "math" "sin")]);
      [exact I|reflexivity|repeat constructor].
  - reflexivity.
  - reflexivity.
  - simpl. lia.
Defined.

(** C7 as stated fails: the invocable inside the list of field [fns] is in
    the returned mapping as it was. *)
Lemma class_to_dict_keeps_invocable_in_sequence :
  exists d h' x,
    class_to_dict 2 (VRef 0) Demo.callable_in_list = Ok d h'
    /\ anywhere h' d x /\ callable h' x = true.
Proof.
  eexists _, _, (VFunc "math" "sin"). split; [reflexivity|]. split; [|reflexivity].
  eapply tc_l.
  - left. exists 1, [("fns", VList [VFunc "math" "sin"]); ("f", VStr "math:sin")], "fns".
    repeat split. apply list_elem_of_here.
  - apply tc_once. right. eexists. split; [left; reflexivity|]. apply list_elem_of_here.
Qed.


(** ** Stores that differ in the attributes of some instances *)

Lemma modified_refl ws h : modified ws h h.
Proof. split; auto. Qed.

Lemma modified_weaken ws ws' h h2 :
  (forall l, l ∈ ws -> l ∈ ws') -> modified ws h h2 -> modified ws' h h2.
Proof.
  intros Hsub [Hlen H]. split; [assumption|].
  intros l. destruct (H l) as [?|[? ?]]; auto.
Qed.

Lemma modified_trans ws h h1 h2 :
  modified ws h h1 -> modified ws h1 h2 -> modified ws h h2.
Proof.
  intros [L1 H1] [L2 H2]. split; [congruence|].
  intros l. destruct (H2 l) as [E2|(Hin & c & a & a2 & E1 & E2)].
  - rewrite E2. apply H1.
  - right. split; [assumption|].
    destruct (H1 l) as [E|(_ & c' & a' & a2' & E & E')].
    + exists c, a, a2. now rewrite <- E.
    + exists c, a', a2. split; [|assumption]. congruence.
Qed.

Lemma modified_setattr h l c a a' :
  h !! l = Some (HInst c a) -> modified [l] h (<[l := HInst c a']> h).
Proof.
  intros Hl. split; [apply length_insert|].
  intros l'. destruct (decide (l' = l)) as [->|Hne].
  - right. split; [apply list_elem_of_here|]. exists c, a, a'. split; [assumption|].
    apply list_lookup_insert_eq. eapply lookup_lt_Some; eauto.
  - left. now apply list_lookup_insert_ne.
Qed.

Lemma modified_outside ws h h2 l :
  modified ws h h2 -> l ∉ ws -> h2 !! l = h !! l.
Proof. intros [_ H] Hl. destruct (H l) as [?|[? _]]; [assumption|contradiction]. Qed.

Lemma modified_dict ws h h2 l d :
  modified ws h h2 -> h !! l = Some (HDict d) -> h2 !! l = Some (HDict d).
Proof.
  intros [_ H] Hl. destruct (H l) as [E|(_ & c & a & a2 & E & _)]; congruence.
Qed.

Lemma callable_modified ws h h2 x :
  modified ws h h2 -> callable h2 x = callable h x.
Proof.
  intros [_ H]. destruct x; try reflexivity. simpl.
  destruct (H l) as [E|(_ & c & a & a2 & E & E2)]; [now rewrite E|].
  now rewrite E, E2.
Qed.

(** ** Merge targets *)

Lemma target_ws_bound h : forall t cur ws,
  target h cur t ws -> forall l, l ∈ ws -> l < length h.
Proof.
  induction t as [x|items IH|c items IH] using tree_ind'; intros cur ws Ht;
    inversion Ht as [| |l0 c0 attrs tattrs ws0 Hl Hts]; subst;
    try (intros lx Hin; inversion Hin; fail).
  intros l Hin. apply elem_of_cons in Hin as [->|Hin].
  { eapply lookup_lt_Some; eauto. }
  clear Ht Hl. revert IH l Hin.
  induction Hts as [|k cur t ws rest trest wsrest Ht _ IHrest]; intros IH l Hin.
  - inversion Hin.
  - apply Forall_cons in IH as [IHt IH]. apply elem_of_app in Hin as [Hin|Hin].
    + eapply IHt; eauto.
    + eapply IHrest; eauto.
Qed.

(** A target stays one when its instances and every dictionary are kept and
    no value becomes invocable. *)
Lemma target_frame h h2 : forall t cur ws,
  target h cur t ws ->
  (forall l c a, l ∈ ws -> h !! l = Some (HInst c a) -> h2 !! l = Some (HInst c a)) ->
  (forall l d, h !! l = Some (HDict d) -> h2 !! l = Some (HDict d)) ->
  (forall x, callable h x = false -> callable h2 x = false) ->
  target h2 cur t ws.
Proof.
  induction t as [x|items IH|c items IH] using tree_ind'; intros cur ws Ht F1 F2 F3;
    inversion Ht as [|l0 cur_items ? Hl Hall|l0 c0 attrs tattrs ws0 Hl Hts]; subst.
  - now constructor.
  - econstructor; [eauto|]. eapply Forall_impl; [exact Hall|]. intros kx. apply F3.
  - apply (target_obj h2 l0 c attrs);
      [apply F1; [apply list_elem_of_here|assumption]|].
    assert (F1' : forall l c a, l ∈ ws0 -> h !! l = Some (HInst c a) ->
                    h2 !! l = Some (HInst c a)).
    { intros l c' a Hin. apply F1. now apply list_elem_of_further. }
    clear Ht Hl F1. revert IH F1'.
    induction Hts as [|k cur t ws rest trest wsrest Ht _ IHrest]; intros IH F1.
    + constructor.
    + apply Forall_cons in IH as [IHt IH]. constructor.
      * apply IHt; auto. intros l c' a Hin. apply F1. apply elem_of_app. now left.
      * apply IHrest; auto. intros l c' a Hin. apply F1. apply elem_of_app. now right.
Qed.

Lemma target_modified ws' h h2 t cur ws :
  target h cur t ws -> modified ws' h h2 -> (forall l, l ∈ ws -> l ∉ ws') ->
  target h2 cur t ws.
Proof.
  intros Ht Hm Hdisj. eapply target_frame; [exact Ht| | |].
  - intros l c a Hin Hl. rewrite (modified_outside _ _ _ _ Hm); auto.
  - intros l d. eapply modified_dict; eauto.
  - intros x. now rewrite (callable_modified _ _ _ _ Hm).
Qed.

Lemma target_extends h h1 t cur ws :
  target h cur t ws -> extends h h1 -> fresh_dicts (length h) h1 ->
  target h1 cur t ws.
Proof.
  intros Ht Hext HF. eapply target_frame; [exact Ht| | |].
  - intros l c a _. eapply extends_lookup; eauto.
  - intros l d. eapply extends_lookup; eauto.
  - intros x. destruct x; auto. simpl.
    destruct (h !! l) as [o|] eqn:E.
    + now rewrite (extends_lookup _ _ _ _ Hext E).
    + intros _. destruct (h1 !! l) as [o|] eqn:E1; [|reflexivity].
      apply lookup_ge_None_1 in E.
      destruct (HF l o E E1) as (items & -> & _). reflexivity.
Qed.

Lemma assoc_get_middle k v (done todo : list (string * pyval)) :
  k ∉ keys done -> assoc_get k (done ++ (k, v) :: todo) = Some v.
Proof.
  induction done as [|[k' v'] done IH]; simpl; intros Hk.
  - now rewrite String.eqb_refl.
  - apply not_elem_of_cons in Hk as [Hne Hk].
    apply String.eqb_neq in Hne. rewrite Hne. auto.
Qed.

Lemma assoc_set_middle k x v (done todo : list (string * pyval)) :
  k ∉ keys done ->
  assoc_set k x (done ++ (k, v) :: todo) = done ++ (k, x) :: todo.
Proof.
  induction done as [|[k' v'] done IH]; simpl; intros Hk.
  - now rewrite String.eqb_refl.
  - apply not_elem_of_cons in Hk as [Hne Hk].
    apply String.eqb_neq in Hne. rewrite Hne. now rewrite IH.
Qed.

Lemma leaf_store_independent h x :
  is_leaf x = true ->
  callable h x = callable [] x /\ is_mapping h x = false
  /\ type_of h x = type_of [] x /\ bases_of h x = bases_of [] x.
Proof. destruct x; try discriminate; repeat split. Qed.

Lemma ser_plain : forall t, plain true t = true -> ser t = t.
Proof.
  induction t as [x|items IH|c items IH] using tree_ind'; intros Hp.
  - destruct x; try reflexivity. discriminate.
  - rewrite ser_TMap. f_equal. simpl in Hp.
    induction items as [|[k t] items IHitems]; [reflexivity|].
    apply Forall_cons in IH as [IHt IH]. simpl in *.
    apply andb_true_iff in Hp as [Hkt Hp]. apply andb_true_iff in Hkt as [Hk Ht].
    apply negb_true_iff in Hk. unfold startswith in *. rewrite Hk.
    rewrite IHt by assumption. f_equal. apply IHitems; assumption.
  - discriminate.
Qed.

Lemma decode_entries_none modules value hc : forall items,
  Forall (fun kx => callable hc kx.2 = false) items ->
  for_each items (fun '(k, v) =>
      h' <- get_heap ;;
      if callable h' v then
        entry <- getitem value k ;;
        c <- _string_to_callable modules entry ;;
        setitem value k c
      else ret tt) hc
  = Ok tt hc.
Proof.
  induction 1 as [|[k v] items Hv _ IH]; [reflexivity|].
  rewrite for_each_cons. unfold bind at 1. unfold bind at 1. unfold get_heap at 1.
  simpl in Hv. rewrite Hv. unfold ret at 1. exact IH.
Qed.

(** ** [update_class_from_dict] restores a serialized content *)

Lemma merge_entry modules depth' b lo c k dv tk cur wsk hc done todo _ns :
  merge_ok modules tk ->
  serializable tk = true -> plain false tk = true -> height tk < depth' ->
  denotes (fun l => b <= l) hc dv (ser tk) ->
  target hc cur tk wsk -> NoDup wsk -> (forall l, l ∈ wsk -> l < b) ->
  lo ∉ wsk -> lo < b ->
  hc !! lo = Some (HInst c (done ++ (k, cur) :: todo)) -> k ∉ keys done ->
  exists hf x,
    update_entry modules (update_class_from_dict modules depth') (VRef lo) _ns
      (k, dv) hc = Ok tt hf
    /\ modified (lo :: wsk) hc hf
    /\ hf !! lo = Some (HInst c (done ++ (k, x) :: todo))
    /\ denotes (fun l => l ∈ wsk \/ b <= l) hf x tk.
Proof.
  intros IHt Hser Hplain Hh Hdv Ht Hnd Hws Hlo Hlob Hobj Hk.
  unfold update_entry. unfold bind at 1. unfold get_heap at 1.
  unfold hasattr. rewrite Hobj, (assoc_get_middle _ _ _ _ Hk).
  unfold bind at 1. unfold getattr at 1. rewrite Hobj, (assoc_get_middle _ _ _ _ Hk).
  assert (Hset : forall x, setattr (VRef lo) k x hc
            = Ok tt (<[lo := HInst c (done ++ (k, x) :: todo)]> hc)).
  { intros x. unfold setattr. rewrite Hobj. now rewrite assoc_set_middle. }
  assert (Hmod : forall x, modified (lo :: wsk) hc
                   (<[lo := HInst c (done ++ (k, x) :: todo)]> hc)).
  { intros x. eapply modified_weaken; [|apply (modified_setattr _ _ _ _ _ Hobj)].
    intros l Hl. apply list_elem_of_singleton in Hl as ->. apply list_elem_of_here. }
  assert (Hlt : lo < length hc) by (eapply lookup_lt_Some; eauto).
  inversion Ht as [cur0 v Hacc|lc cur_items titems Hlc Hall|lc c' attrs tattrs ws' Hlc Hts];
    subst.
  - (* a scalar, string or sequence *)
    assert (dv = v /\ is_leaf v = true) as [-> Hleafv].
    { destruct v; simpl in Hplain; try discriminate Hplain;
        inversion Hdv; subst; auto. }
    unfold accepts in Hacc. apply andb_true_iff in Hacc as [Hleafc Hacc].
    destruct (leaf_store_independent hc cur Hleafc) as (Hcc & Hmc & Htc & _).
    destruct (leaf_store_independent hc v Hleafv) as (_ & Hmv & Htv & Hbv).
    rewrite Hmc, Hmv.
    assert (Hfinal : forall x, denotes (fun l => l ∈ [] \/ b <= l)
              (<[lo := HInst c (done ++ (k, x) :: todo)]> hc) v (TLeaf v))
      by (intros; now constructor).
    destruct v; try discriminate; cbn [is_iterable is_str negb andb];
      rewrite ?Hmv; cbn [andb];
      try (rewrite Hcc; apply andb_true_iff in Hacc as [Hnc Hinst];
           apply negb_true_iff in Hnc; rewrite Hnc;
           unfold isinstance in *; rewrite Htc; cbn [type_of bases_of] in *;
           rewrite Hinst; rewrite Hset; eexists _, _;
           split; [reflexivity|]; split; [apply Hmod|];
           split; [now apply list_lookup_insert_eq|apply Hfinal]).
    + destruct (sized cur) as [n|] eqn:Hn; [|discriminate Hacc].
      apply Nat.eqb_eq in Hacc.
      unfold bind at 1. unfold len at 1.
      destruct cur; try discriminate; rewrite ?Hn; cbn beta iota;
        unfold bind at 1; unfold len at 1; cbn [sized]; cbn beta iota;
        rewrite Hacc, Nat.eqb_refl; cbn [negb andb]; rewrite Hset;
        eexists _, _; (split; [reflexivity|]); (split; [apply Hmod|]);
        (split; [now apply list_lookup_insert_eq|apply Hfinal]).
    + destruct (sized cur) as [n|] eqn:Hn; [|discriminate Hacc].
      apply Nat.eqb_eq in Hacc.
      unfold bind at 1. unfold len at 1.
      destruct cur; try discriminate; rewrite ?Hn; cbn beta iota;
        unfold bind at 1; unfold len at 1; cbn [sized]; cbn beta iota;
        rewrite Hacc, Nat.eqb_refl; cbn [negb andb]; rewrite Hset;
        eexists _, _; (split; [reflexivity|]); (split; [apply Hmod|]);
        (split; [now apply list_lookup_insert_eq|apply Hfinal]).
  - (* a generic mapping *)
    change (plain true (TMap titems) = true) in Hplain.
    rewrite (ser_plain _ Hplain) in Hdv.
    inversion Hdv as [|ldv items ? Hb Hldv Hitems|]; subst.
    unfold is_mapping at 1. rewrite Hlc.
    unfold bind at 1. unfold bind at 1. unfold dict_items at 1. rewrite Hlc.
    rewrite (decode_entries_none modules (VRef ldv) hc cur_items Hall).
    rewrite Hset. eexists _, _. split; [reflexivity|]. split; [apply Hmod|].
    split; [now apply list_lookup_insert_eq|].
    eapply denotes_frame; [exact Hdv| |auto].
    intros l o Hl Hlook. simpl in Hl. rewrite list_lookup_insert_ne by lia. assumption.
  - (* a nested object *)
    pose proof Hdv as Hdv'. rewrite ser_TObj in Hdv'.
    inversion Hdv' as [|ldv items ? Hb Hldv Hitems|]; subst.
    unfold is_mapping at 1. rewrite Hlc.
    unfold is_mapping at 1. rewrite Hldv.
    destruct (IHt c' tattrs eq_refl depth' hc (VRef ldv) (VRef lc) (lc :: ws')
                (_ns +:+ "/" +:+ k) b) as (h2 & Hrun & Hm & Hden); auto.
    exists h2, (VRef lc). split; [exact Hrun|]. split; [|split; [|exact Hden]].
    + eapply modified_weaken; [|exact Hm]. intros l Hl. now apply list_elem_of_further.
    + rewrite (modified_outside _ _ _ _ Hm); assumption.
Qed.

Lemma targets_modified ws' h h2 attrs tattrs ws :
  targets h attrs tattrs ws -> modified ws' h h2 ->
  (forall l, l ∈ ws -> l ∉ ws') ->
  targets h2 attrs tattrs ws.
Proof.
  intros Hts Hm. induction Hts as [|k cur t ws rest trest wsrest Ht _ IH];
    intros Hdisj; constructor.
  - eapply target_modified; eauto. intros l Hl. apply Hdisj, elem_of_app. now left.
  - apply IH. intros l Hl. apply Hdisj, elem_of_app. now right.
Qed.

Lemma merge_loop modules depth' b lo c _ns : forall todo_t hc todo_a wst todo_d done_a,
  targets hc todo_a todo_t wst ->
  Forall (fun kt => merge_ok modules kt.2) todo_t ->
  forallb (fun kt => serializable kt.2) todo_t = true ->
  forallb (fun kt => negb (startswith "__" kt.1) && plain false kt.2) todo_t = true ->
  list_max (map (fun kt => height kt.2) todo_t) < depth' ->
  Forall2 (fun kx kt => kx.1 = kt.1 /\ denotes (fun l => b <= l) hc kx.2 (ser kt.2))
    todo_d todo_t ->
  NoDup wst -> (forall l, l ∈ wst -> l < b) -> lo ∉ wst -> lo < b ->
  hc !! lo = Some (HInst c (done_a ++ todo_a)) ->
  NoDup (map fst todo_t) -> (forall k, k ∈ map fst todo_t -> k ∉ keys done_a) ->
  exists hf final_a,
    for_each todo_d
      (update_entry modules (update_class_from_dict modules depth') (VRef lo) _ns) hc
    = Ok tt hf
    /\ modified (lo :: wst) hc hf
    /\ hf !! lo = Some (HInst c (done_a ++ final_a))
    /\ Forall2 (fun kx kt => kx.1 = kt.1
                  /\ denotes (fun l => l ∈ wst \/ b <= l) hf kx.2 kt.2)
         final_a todo_t.
Proof.
  induction todo_t as [|[k tk] rest_t IH];
    intros hc todo_a wst todo_d done_a Hts IHs Hser Hplain Hh Hdata Hnd Hws Hlo Hlob
      Hobj Hkeys Hfresh.
  - inversion Hts; subst. inversion Hdata; subst.
    exists hc, []. split; [reflexivity|]. split; [apply modified_refl|].
    split; [assumption|constructor].
  - inversion Hts as [|k0 cur t0 wsk rest_a ? ws_rest Ht Hrest]; subst.
    inversion Hdata as [|[k' dv] ? rest_d ? [Hk Hdv] Hdata']; subst.
    simpl in Hk. subst k'. simpl in Hdv.
    apply Forall_cons in IHs as [IHt IHs]. simpl in IHt.
    simpl in Hser. apply andb_true_iff in Hser as [Hsert Hser].
    simpl in Hplain. apply andb_true_iff in Hplain as [Hpt Hplain].
    apply andb_true_iff in Hpt as [_ Hpt].
    simpl in Hh. simpl in Hkeys. apply NoDup_cons in Hkeys as [Hknew Hkeys].
    apply NoDup_app in Hnd as (Hndk & Hdisj & Hndr).
    assert (Hlok : lo ∉ wsk) by (intros ?; apply Hlo, elem_of_app; now left).
    assert (Hlor : lo ∉ ws_rest) by (intros ?; apply Hlo, elem_of_app; now right).
    destruct (merge_entry modules depth' b lo c k dv tk cur wsk hc done_a rest_a _ns)
      as (hm & x & Hrun & Hm & Hobjm & Hdenx); auto; try lia.
    { intros l Hl. apply Hws, elem_of_app. now left. }
    { apply Hfresh. simpl. apply list_elem_of_here. }
    destruct (IH hm rest_a ws_rest rest_d (done_a ++ [(k, x)]))
      as (hf & final_rest & Hrun' & Hm' & Hobjf & Hdenf); auto; try lia.
    { eapply targets_modified; [exact Hrest|exact Hm|].
      intros l Hl Hin. apply elem_of_cons in Hin as [->|Hin]; [contradiction|].
      exact (Hdisj l Hin Hl). }
    { eapply Forall2_impl; [exact Hdata'|]. intros kx kt [? Hd]. split; [assumption|].
      eapply denotes_frame; [exact Hd| |auto].
      intros l o Hl Hlook. simpl in Hl. rewrite (modified_outside _ _ _ _ Hm); auto.
      intros Hin. apply elem_of_cons in Hin as [->|Hin]; [lia|].
      assert (l < b) by (apply Hws, elem_of_app; now left). lia. }
    { intros l Hl. apply Hws, elem_of_app. now right. }
    { now rewrite <- app_assoc. }
    { intros k0 Hk0. rewrite keys_app. apply not_elem_of_app. split.
      - apply Hfresh. simpl. now apply list_elem_of_further.
      - simpl. intros Hin. apply list_elem_of_singleton in Hin. now subst. }
    exists hf, ((k, x) :: final_rest).
    rewrite for_each_cons. unfold bind at 1. rewrite Hrun.
    split; [exact Hrun'|]. split; [|split].
    + eapply modified_trans.
      * eapply modified_weaken; [|exact Hm]. intros l Hl.
        apply elem_of_cons in Hl as [->|Hl]; [apply list_elem_of_here|].
        apply list_elem_of_further, elem_of_app. now left.
      * eapply modified_weaken; [|exact Hm']. intros l Hl.
        apply elem_of_cons in Hl as [->|Hl]; [apply list_elem_of_here|].
        apply list_elem_of_further, elem_of_app. now right.
    + now rewrite <- app_assoc in Hobjf.
    + constructor.
      * split; [reflexivity|]. simpl.
        eapply denotes_frame; [exact Hdenx| |].
        -- intros l o Hl Hlook. rewrite (modified_outside _ _ _ _ Hm'); auto.
           intros Hin. apply elem_of_cons in Hin as [->|Hin].
           ++ destruct Hl as [Hl|Hl]; [contradiction|lia].
           ++ destruct Hl as [Hl|Hl]; [exact (Hdisj l Hl Hin)|].
              assert (l < b) by (apply Hws, elem_of_app; now right). lia.
        -- intros l [Hl|Hl]; [left; apply elem_of_app; now left|now right].
      * eapply Forall2_impl; [exact Hdenf|]. intros kx kt [? Hd]. split; [assumption|].
        eapply denotes_frame; [exact Hd|auto|].
        intros l [Hl|Hl]; [left; apply elem_of_app; now right|now right].
Qed.

Lemma ser_items_Forall2 {A} (R : A -> tree -> Prop) (P : tree -> bool) :
  forall (tattrs : list (string * tree)) (ditems : list (string * A)),
  forallb (fun kt => negb (startswith "__" kt.1) && P kt.2) tattrs = true ->
  Forall2 (fun kx kt => kx.1 = kt.1 /\ R kx.2 kt.2) ditems (ser_items tattrs) ->
  Forall2 (fun kx kt => kx.1 = kt.1 /\ R kx.2 (ser kt.2)) ditems tattrs.
Proof.
  induction tattrs as [|[k t] tattrs IH]; intros ditems Hp H2.
  - inversion H2. constructor.
  - simpl in Hp. apply andb_true_iff in Hp as [Hkt Hp].
    apply andb_true_iff in Hkt as [Hk _]. apply negb_true_iff in Hk.
    cbn [ser_items] in H2. rewrite Hk in H2.
    inversion H2 as [|kx ? ditems' ? Hx Hrest]; subst.
    constructor; [exact Hx|]. now apply IH.
Qed.

Lemma merge_tree modules : forall t, merge_ok modules t.
Proof.
  induction t as [x|items IH|c0 items IH] using tree_ind';
    intros c tattrs Heq; try discriminate.
  injection Heq as -> ->.
  intros depth h d o' ws _ns b Hh Hser Hplain Hd Ht Hnd Hws.
  destruct depth as [|depth']; [lia|]. simpl in Hh.
  rewrite ser_TObj in Hd.
  inversion Hd as [|ld ditems ? Hb Hld Hditems|]; subst.
  inversion Ht as [| |lo c' attrs ? ws' Hlo Hts]; subst.
  simpl in Hser. apply andb_true_iff in Hser as [Hkeys Hser].
  apply andb_true_iff in Hkeys as [_ Hkeys]. apply bool_decide_eq_true in Hkeys.
  simpl in Hplain.
  apply NoDup_cons in Hnd as [Hlo_new Hnd].
  destruct (merge_loop modules depth' b lo c _ns tattrs h attrs ws' ditems [])
    as (hf & final_a & Hrun & Hm & Hobj & Hden); auto; try lia.
  { eapply ser_items_Forall2; eauto. }
  { intros l Hl. apply Hws. now apply list_elem_of_further. }
  { apply Hws, list_elem_of_here. }
  { intros k _ Hin. inversion Hin. }
  exists hf. split; [|split; [exact Hm|]].
  - rewrite update_class_from_dict_eq. unfold bind at 1. unfold dict_items at 1.
    rewrite Hld. exact Hrun.
  - apply (denotes_obj _ hf lo c final_a tattrs);
      [left; apply list_elem_of_here|exact Hobj|].
    eapply Forall2_impl; [exact Hden|]. intros kx kt [? Hdk]. split; [assumption|].
    eapply denotes_frame; [exact Hdk|auto|].
    intros l [Hl|Hl]; [left; now apply list_elem_of_further|now right].
Qed.

(** ** The round trip *)

Lemma denotes_inv_dict (P : nat -> Prop) h l items t :
  h !! l = Some (HDict items) -> denotes P h (VRef l) t ->
  exists titems, t = TMap titems
    /\ Forall2 (fun kx kt => kx.1 = kt.1 /\ denotes P h kx.2 kt.2) items titems.
Proof.
  intros Hl Hd. inversion Hd; subst; try discriminate; try congruence.
  assert (items0 = items) as -> by congruence. eauto.
Qed.

Lemma denotes_inv_inst (P : nat -> Prop) h l c attrs t :
  h !! l = Some (HInst c attrs) -> denotes P h (VRef l) t ->
  exists tattrs, t = TObj c tattrs
    /\ Forall2 (fun kx kt => kx.1 = kt.1 /\ denotes P h kx.2 kt.2) attrs tattrs.
Proof.
  intros Hl Hd. inversion Hd; subst; try discriminate; try congruence.
  assert (c0 = c /\ attrs0 = attrs) as [-> ->] by (split; congruence). eauto.
Qed.

(** C1, as the code has it. Let [o] be a structured object whose content has
    unique keys, none starting with ["__"], no invocable held by a field or
    entry, no instance of a class with [__call__] and no structured object
    below a generic mapping; let [o'] be an object of the same schema, that is
    with the same classes and fields, a mapping without invocable entries
    where [o] has a mapping, a string, list or tuple of the same length where
    [o] has a sequence, a value of whose type [o]'s value is an instance where
    [o] has another value, its instances being distinct and apart from
    those of [o]; and let the interpreter allow as many nested calls as [o]
    is deep.  Then [class_to_dict(o)] returns a mapping,
    [update_class_from_dict(o', mapping)] succeeds, and afterwards [o'] holds
    the content of [o], which [o] still holds: they are equal field for
    field. *)
Theorem round_trip_restores (modules : string -> option pymodule) (depth : nat)
    (h : heap) (o o' : pyval) (c : pyclass) (tattrs : list (string * tree))
    (ws : list loc) :
  denotes (fun l => l ∉ ws) h o (TObj c tattrs) ->
  serializable (TObj c tattrs) = true ->
  plain false (TObj c tattrs) = true ->
  target h o' (TObj c tattrs) ws ->
  NoDup ws ->
  height (TObj c tattrs) < depth ->
  exists d h1 h2,
    class_to_dict depth o h = Ok d h1
    /\ update_class_from_dict modules depth o' d "" h1 = Ok tt h2
    /\ denotes (fun _ => True) h2 o' (TObj c tattrs)
    /\ denotes (fun _ => True) h2 o (TObj c tattrs)
    /\ same_content h2 o' o.
Proof.
  intros Ho Hser Hplain Ht Hnd Hh.
  destruct (serialize_tree (TObj c tattrs) _ depth h o Ho Hser eq_refl Hh)
    as (h1 & Hrun & Hext & Hlen & Hd).
  destruct (class_to_dict_fresh _ _ _ _ _ Hrun) as (_ & _ & _ & HF).
  pose proof (target_extends _ _ _ _ _ Ht Hext HF) as Ht1.
  destruct (merge_tree modules (TObj c tattrs) c tattrs eq_refl depth h1
              (VRef (length h)) o' ws "" (length h) Hh Hser Hplain Hd Ht1 Hnd)
    as (h2 & Hrun2 & Hm & Hd2).
  { intros l Hl. eapply target_ws_bound; eauto. }
  assert (Ho' : denotes (fun _ => True) h2 o' (TObj c tattrs)).
  { eapply denotes_frame; [exact Hd2|auto|auto]. }
  assert (Ho2 : denotes (fun _ => True) h2 o (TObj c tattrs)).
  { eapply denotes_frame; [exact Ho| |auto].
    intros l x Hl Hlook. rewrite (modified_outside _ _ _ _ Hm) by assumption.
    eapply extends_lookup; eauto. }
  exists (VRef (length h)), h1, h2. repeat split; try assumption.
  exists (TObj c tattrs). auto.
Qed.

Lemma round_trip_restores_witness :
  exists d h1 h2,
    class_to_dict 3 (VRef 0) Demo.configured = Ok d h1
    /\ update_class_from_dict Demo.modules 3 (VRef 3) d "" h1 = Ok tt h2
    /\ denotes (fun _ => True) h2 (VRef 3) (TObj Demo.Cfg Demo.configured_content)
    /\ denotes (fun _ => True) h2 (VRef 0) (TObj Demo.Cfg Demo.configured_content)
    /\ same_content h2 (VRef 3) (VRef 0).
Proof.
  apply (round_trip_restores Demo.modules 3 Demo.configured (VRef 0) (VRef 3)
           Demo.Cfg Demo.configured_content [3; 5]).
  - apply (denotes_obj _ _ 0 Demo.Cfg
             [("name", VStr "arm"); ("gains", VList [VInt 1; VInt 2]);
              ("opts", VRef 1); ("inner", VRef 2)]);
      [compute_done|reflexivity|].
    repeat constructor.
    + apply (denotes_map _ _ 1 [("a", VInt 1); ("b", VInt 2)]);
        [compute_done|reflexivity|repeat constructor].
    + apply (denotes_obj _ _ 2 Demo.Inner [("x", VInt 7)]);
        [compute_done|reflexivity|repeat constructor].
  - reflexivity.
  - reflexivity.
  - apply (target_obj _ 3 Demo.Cfg
             [("name", VStr ""); ("gains", VList [VInt 0; VInt 0]);
              ("opts", VRef 4); ("inner", VRef 5)] _ [5]);
      [reflexivity|].
    apply (targets_cons _ "name" (VStr "") _ [] _ _ [5]); [now constructor|].
    apply (targets_cons _ "gains" (VList [VInt 0; VInt 0]) _ [] _ _ [5]);
      [now constructor|].
    apply (targets_cons _ "opts" (VRef 4) _ [] _ _ [5]);
      [apply (target_map _ 4 []); [reflexivity|constructor]|].
    apply (targets_cons _ "inner" (VRef 5) _ [5] _ _ []); [|constructor].
    apply (target_obj _ 5 Demo.Inner [("x", VInt 0)] _ []); [reflexivity|].
    apply (targets_cons _ "x" (VInt 0) _ [] _ _ []); [now constructor|constructor].
  - compute_done.
  - simpl. lia.
Defined.

(** C1 as stated fails: an object held by a mapping field comes back as a
    mapping.  With [o.opts = {"a": Inner(x=1)}] and [o'] of the same classes
    and fields, the round trip succeeds and leaves [o'.opts = {"a": {"x": 1}}],
    which is not the content of [o]. *)
Lemma round_trip_object_in_mapping :
  exists d h1 h2,
    class_to_dict 3 (VRef 0) Demo.object_in_mapping = Ok d h1
    /\ update_class_from_dict Demo.modules 3 (VRef 3) d "" h1 = Ok tt h2
    /\ ~ same_content h2 (VRef 3) (VRef 0).
Proof.
  eexists _, _, _. split; [reflexivity|]. split; [reflexivity|].
  intros (t & H3 & H0). cbv in H3, H0.
  eapply denotes_inv_inst in H3 as (ta3 & Heq3 & F3); [|reflexivity].
  eapply denotes_inv_inst in H0 as (ta0 & Heq0 & F0); [|reflexivity].
  subst t. inversion Heq0; subst ta0. clear Heq0.
  inversion F3 as [|? [k t1] ? ? [_ D3] _]; subst. simpl in D3.
  inversion F0 as [|? ? ? ? [_ D0] _]; subst. simpl in D0.
  eapply denotes_inv_dict in D3 as (tm3 & Heq3 & G3); [|reflexivity].
  eapply denotes_inv_dict in D0 as (tm0 & Heq0 & G0); [|reflexivity].
  subst t1. inversion Heq0; subst tm0. clear Heq0.
  inversion G3 as [|? [k' t2] ? ? [_ E3] _]; subst. simpl in E3.
  inversion G0 as [|? ? ? ? [_ E0] _]; subst. simpl in E0.
  eapply denotes_inv_dict in E3 as (tx & Heq3 & _); [|reflexivity].
  eapply denotes_inv_inst in E0 as (ty & Heq0 & _); [|reflexivity].
  congruence.
Qed.

(** Nor does the round trip go through when a sequence of [o] has another
    length than that of [o']: a default-constructed empty list refuses the
    two elements of [o]. *)
Lemma round_trip_sequence_length :
  exists d h1 h2,
    class_to_dict 2 (VRef 0) Demo.empty_default = Ok d h1
    /\ update_class_from_dict Demo.modules 2 (VRef 1) d "" h1
       = Raise (ValueError (MsgIncorrectLength "/gains" 0 2)) h2
    /\ h2 = h1.
Proof. eexists _, _, _. repeat split. Qed.

(** * Further properties *)

(** ** [class_to_dict]: what it leaves alone and what it returns *)

Lemma setitem_extends h b k x hc r :
  length h <= b -> extends h hc -> setitem (VRef b) k x hc = r ->
  extends h (final_heap r).
Proof.
  intros Hb Hext <-. unfold setitem.
  destruct (hc !! b) as [[items|]|]; simpl; auto using extends_insert.
Qed.

Lemma class_to_dict_entry_extends (rec : pyval -> M pyval) h b entry hc :
  (forall v h1 r, rec v h1 = r -> extends h1 (final_heap r)) ->
  length h <= b -> extends h hc ->
  extends h (final_heap (class_to_dict_entry rec (VRef b) entry hc)).
Proof.
  intros Hrec Hb Hext. destruct entry as [key value]. unfold class_to_dict_entry.
  destruct (startswith "__" key); [exact Hext|].
  unfold bind at 1. unfold get_heap at 1.
  destruct (callable hc value).
  - unfold bind, qualified_name. destruct value; try exact Hext.
    eapply setitem_extends; eauto.
  - destruct (has_dict hc value || is_mapping hc value).
    + unfold bind at 1.
      destruct (rec value hc) as [sub hs|e hs] eqn:Esub.
      * eapply setitem_extends; [exact Hb| |reflexivity].
        eapply extends_trans; [exact Hext|]. exact (Hrec _ _ _ Esub).
      * simpl. eapply extends_trans; [exact Hext|]. exact (Hrec _ _ _ Esub).
    + eapply setitem_extends; eauto.
Qed.

Lemma class_to_dict_extends depth : forall obj h r,
  class_to_dict depth obj h = r -> extends h (final_heap r).
Proof.
  induction depth as [|depth IH]; intros obj h r <-.
  { simpl. split; auto. }
  rewrite class_to_dict_eq. unfold bind at 1. unfold get_heap at 1.
  unfold hasattr_class. cbn [negb]. unfold bind at 1.
  destruct ((if is_mapping h obj then dict_items obj else dunder_dict_items obj) h)
    as [obj_dict h0|e h0] eqn:Eitems.
  2:{ simpl. assert (h0 = h) as ->; [|split; auto].
      destruct (is_mapping h obj); [unfold dict_items in Eitems|unfold dunder_dict_items in Eitems];
        destruct obj; try congruence; destruct (h !! l) as [[]|]; congruence. }
  assert (h0 = h) as ->.
  { destruct (is_mapping h obj); [unfold dict_items in Eitems|unfold dunder_dict_items in Eitems];
      destruct obj; try discriminate; try congruence;
      destruct (h !! l) as [[]|]; congruence. }
  unfold bind at 1. unfold dict_new at 1. unfold bind at 1.
  assert (Hloop : forall items hc,
    extends h hc ->
    extends h (final_heap
      (for_each items (class_to_dict_entry (class_to_dict depth) (VRef (length h))) hc))).
  { induction items as [|entry items IHitems]; intros hc Hext; [exact Hext|].
    rewrite for_each_cons. unfold bind at 1.
    pose proof (class_to_dict_entry_extends (class_to_dict depth) h (length h)
                  entry hc IH (le_n _) Hext) as Hentry.
    destruct (class_to_dict_entry _ _ _ hc) as [[] hm|e hm]; [|exact Hentry].
    apply IHitems. exact Hentry. }
  specialize (Hloop obj_dict (h ++ [HDict []]) (extends_app _ _)).
  destruct (for_each obj_dict _ _) as [[] hf|e hf]; exact Hloop.
Qed.

(** X1. [class_to_dict] never writes to an object that was there when it
    was called, whether it returns or raises; and what it returns is a
    mapping that was not there, even when the input is itself a mapping. *)
Theorem class_to_dict_input_untouched (depth : nat) (obj : pyval) (h : heap)
    (r : outcome pyval) :
  class_to_dict depth obj h = r ->
  (forall l o, h !! l = Some o -> final_heap r !! l = Some o)
  /\ (forall d h', r = Ok d h' ->
       exists l, d = VRef l /\ h !! l = None /\ is_mapping h' d = true).
Proof.
  intros Hrun. split.
  - intros l o Hl. eapply extends_lookup; [|exact Hl].
    eapply class_to_dict_extends; eauto.
  - intros d h' ->. destruct (class_to_dict_fresh _ _ _ _ _ Hrun) as (-> & _ & Hlen & HF).
    exists (length h). split; [reflexivity|]. split.
    + now apply lookup_ge_None_2.
    + simpl. destruct (lookup_lt_is_Some_2 h' (length h) Hlen) as [o Ho].
      rewrite Ho. destruct (HF _ _ (le_n _) Ho) as (items & -> & _). reflexivity.
Qed.

Lemma class_to_dict_input_untouched_witness :
  exists d h',
    class_to_dict 3 (VRef 0) Demo.configured = Ok d h'
    /\ (forall l o, Demo.configured !! l = Some o -> h' !! l = Some o)
    /\ exists l, d = VRef l /\ Demo.configured !! l = None
                 /\ is_mapping h' d = true.
Proof.
  eexists _, _. split; [reflexivity|].
  destruct (class_to_dict_input_untouched 3 (VRef 0) Demo.configured _ eq_refl)
    as [Hkeep Hnew].
  split; [exact Hkeep|]. exact (Hnew _ _ eq_refl).
Defined.

Lemma entries_of_run h l o :
  h !! l = Some o ->
  (if is_mapping h (VRef l) then dict_items (VRef l)
   else dunder_dict_items (VRef l)) h = Ok (entries_of o) h.
Proof.
  intros Hl. unfold is_mapping, dict_items, dunder_dict_items. rewrite Hl.
  destruct o; rewrite ?Hl; reflexivity.
Qed.

Lemma class_to_dict_run depth l h o :
  h !! l = Some o ->
  class_to_dict (S depth) (VRef l) h
  = match for_each (entries_of o)
            (class_to_dict_entry (class_to_dict depth) (VRef (length h)))
            (h ++ [HDict []]) with
    | Ok _ h' => Ok (VRef (length h)) h'
    | Raise e h' => Raise e h'
    end.
Proof.
  intros Hl. rewrite class_to_dict_eq. unfold bind at 1. unfold get_heap at 1.
  unfold hasattr_class. cbn [negb]. unfold bind at 1.
  rewrite (entries_of_run _ _ _ Hl).
  unfold bind at 1. unfold dict_new at 1. unfold bind at 1.
  destruct (for_each _ _ _) as [[] ?|]; reflexivity.
Qed.

(** X2. On an object or mapping whose first entry is the object itself,
    [class_to_dict] does not return, whatever the recursion limit: it ends in
    [RecursionError]. *)
Theorem class_to_dict_self_reference (depth : nat) (h : heap) (l : loc)
    (o : hobj) (key : string) (rest : list (string * pyval)) :
  h !! l = Some o ->
  entries_of o = (key, VRef l) :: rest ->
  callable h (VRef l) = false ->
  startswith "__" key = false ->
  exists h', class_to_dict depth (VRef l) h = Raise RecursionError h'.
Proof.
  intros Hl He Hc Hk. revert h Hl Hc.
  induction depth as [|depth IH]; intros h Hl Hc; [eexists; reflexivity|].
  rewrite (class_to_dict_run _ _ _ _ Hl), He.
  assert (Hl1 : (h ++ [HDict []]) !! l = Some o) by now apply lookup_app_l_Some.
  assert (Hc1 : callable (h ++ [HDict []]) (VRef l) = false)
    by (simpl in *; now rewrite Hl1, Hl in *).
  destruct (IH _ Hl1 Hc1) as (h' & Hrec).
  exists h'. rewrite for_each_cons. unfold bind at 1.
  unfold class_to_dict_entry. rewrite Hk.
  unfold bind at 1. unfold get_heap at 1. rewrite Hc1.
  assert (has_dict (h ++ [HDict []]) (VRef l)
          || is_mapping (h ++ [HDict []]) (VRef l) = true) as ->
    by (simpl; rewrite Hl1; now destruct o).
  unfold bind at 1. now rewrite Hrec.
Qed.

Lemma class_to_dict_self_reference_witness :
  exists h', class_to_dict 1000 (VRef 0) Sample.self_reference
             = Raise RecursionError h'.
Proof.
  exact (class_to_dict_self_reference 1000 Sample.self_reference 0 _ "me"
           [("x", VInt 1)] eq_refl eq_refl eq_refl eq_refl).
Defined.

(** X3. A field that holds an instance of a class with [__call__], the
    instance having no [__name__], cannot be serialized: [class_to_dict]
    takes it for an invocable, asks for its [__name__], and ends in
    [AttributeError]. *)
Theorem class_to_dict_callable_instance (depth : nat) (h : heap) (l li : loc)
    (o : hobj) (key : string) (rest attrs : list (string * pyval))
    (c : pyclass) :
  h !! l = Some o ->
  entries_of o = (key, VRef li) :: rest ->
  startswith "__" key = false ->
  h !! li = Some (HInst c attrs) ->
  cls_call c = true ->
  hasattr h (VRef li) "__name__" = false ->
  exists h',
    class_to_dict (S depth) (VRef l) h
    = Raise (AttributeError (MsgNoAttribute (TClass (cls_name c)) "__name__")) h'.
Proof.
  intros Hl He Hk Hli Hc _. exists (h ++ [HDict []]).
  rewrite (class_to_dict_run _ _ _ _ Hl), He.
  assert (Hl1 : (h ++ [HDict []]) !! li = Some (HInst c attrs))
    by now apply lookup_app_l_Some.
  rewrite for_each_cons. unfold bind at 1.
  unfold class_to_dict_entry. rewrite Hk.
  unfold bind at 1. unfold get_heap at 1.
  unfold callable. rewrite Hl1, Hc.
  unfold bind, qualified_name, type_of. now rewrite Hl1.
Qed.

Lemma class_to_dict_callable_instance_witness :
  exists h',
    class_to_dict 2 (VRef 0) Sample.callable_instance
    = Raise (AttributeError (MsgNoAttribute (TClass "Policy") "__name__")) h'.
Proof.
  exact (class_to_dict_callable_instance 1 Sample.callable_instance 0 1 _ "act"
           [] [] Sample.Policy eq_refl eq_refl eq_refl eq_refl eq_refl eq_refl).
Defined.

Lemma public_keys_cons k ks :
  public_keys (k :: ks) = public_keys [k] ++ public_keys ks.
Proof. unfold public_keys. simpl. destruct (negb (startswith "__" k)); reflexivity. Qed.

Lemma class_to_dict_entry_keys depth b key value hc acc hm :
  class_to_dict_entry (class_to_dict depth) (VRef b) (key, value) hc = Ok tt hm ->
  hc !! b = Some (HDict acc) -> key ∉ keys acc ->
  exists acc', hm !! b = Some (HDict acc')
               /\ keys acc' = keys acc ++ public_keys [key].
Proof.
  intros Hrun Hb Hk. unfold class_to_dict_entry in Hrun.
  unfold public_keys. simpl.
  destruct (startswith "__" key).
  { injection Hrun as <-. exists acc. now rewrite app_nil_r. }
  assert (Hset : forall x hs, hs !! b = Some (HDict acc) ->
            setitem (VRef b) key x hs = Ok tt hm ->
            exists acc', hm !! b = Some (HDict acc')
                         /\ keys acc' = keys acc ++ [key]).
  { intros x hs Hs. unfold setitem. rewrite Hs, assoc_set_fresh by assumption.
    intros [= <-]. exists (acc ++ [(key, x)]).
    split; [|now rewrite keys_app].
    apply list_lookup_insert_eq. eapply lookup_lt_Some; eauto. }
  unfold bind at 1 in Hrun. unfold get_heap at 1 in Hrun.
  destruct (callable hc value).
  - unfold bind, qualified_name in Hrun. destruct value; try discriminate.
    eapply Hset; eauto.
  - destruct (has_dict hc value || is_mapping hc value).
    + unfold bind at 1 in Hrun.
      destruct (class_to_dict depth value hc) as [sub hs|] eqn:Esub; [|discriminate].
      eapply Hset; [|exact Hrun].
      eapply extends_lookup; [|exact Hb].
      exact (class_to_dict_extends _ _ _ _ Esub).
    + eapply Hset; eauto.
Qed.

Lemma class_to_dict_loop_keys depth b : forall items hc acc hf,
  for_each items (class_to_dict_entry (class_to_dict depth) (VRef b)) hc = Ok tt hf ->
  hc !! b = Some (HDict acc) ->
  NoDup (keys items) -> (forall k, k ∈ keys items -> k ∉ keys acc) ->
  exists acc', hf !! b = Some (HDict acc')
               /\ keys acc' = keys acc ++ public_keys (keys items).
Proof.
  induction items as [|[key value] items IH]; intros hc acc hf Hrun Hb Hnd Hfresh.
  - injection Hrun as <-. exists acc. now rewrite app_nil_r.
  - rewrite for_each_cons in Hrun. unfold bind at 1 in Hrun.
    destruct (class_to_dict_entry _ _ _ hc) as [[] hm|] eqn:Eentry; [|discriminate].
    simpl in Hnd. apply NoDup_cons in Hnd as [Hknew Hnd].
    destruct (class_to_dict_entry_keys _ _ _ _ _ _ _ Eentry Hb) as (acc1 & Hb1 & Hk1).
    { apply Hfresh. simpl. apply list_elem_of_here. }
    destruct (IH hm acc1 hf Hrun Hb1 Hnd) as (acc' & Hb' & Hk').
    { intros k Hin. rewrite Hk1. apply not_elem_of_app. split.
      - apply Hfresh. simpl. now apply list_elem_of_further.
      - unfold public_keys. simpl. destruct (negb (startswith "__" key)).
        + intros Hin'. apply list_elem_of_singleton in Hin'. now subst.
        + apply not_elem_of_nil. }
    exists acc'. split; [exact Hb'|].
    rewrite Hk', Hk1. change (keys ((key, value) :: items)) with (key :: keys items).
    rewrite (public_keys_cons key (keys items)). rewrite <- app_assoc. reflexivity.
Qed.

(** X4. The mapping that [class_to_dict] returns for an object or mapping
    has exactly the keys of the input that do not start with ["__"], in the
    order of the input. *)
Theorem class_to_dict_keys (depth : nat) (h : heap) (l : loc) (o : hobj)
    (d : pyval) (h' : heap) :
  class_to_dict depth (VRef l) h = Ok d h' ->
  h !! l = Some o ->
  NoDup (keys (entries_of o)) ->
  exists ld ditems,
    d = VRef ld /\ h' !! ld = Some (HDict ditems)
    /\ keys ditems = public_keys (keys (entries_of o)).
Proof.
  intros Hrun Hl Hnd. destruct depth as [|depth]; [discriminate|].
  rewrite (class_to_dict_run _ _ _ _ Hl) in Hrun.
  destruct (for_each _ _ _) as [[] hf|] eqn:Eloop; [|discriminate].
  injection Hrun as <- <-.
  destruct (class_to_dict_loop_keys depth (length h) _ _ [] _ Eloop) as (acc' & Hb & Hk).
  - now rewrite list_lookup_middle.
  - assumption.
  - intros k _. apply not_elem_of_nil.
  - exists (length h), acc'. auto.
Qed.

Lemma class_to_dict_keys_witness :
  exists d h' ld ditems,
    class_to_dict 2 (VRef 0) Sample.reserved_name = Ok d h'
    /\ d = VRef ld /\ h' !! ld = Some (HDict ditems)
    /\ keys ditems = ["a"; "b"].
Proof.
  destruct (class_to_dict_keys 2 Sample.reserved_name 0 _ _ _ eq_refl eq_refl
              ltac:(compute_done)) as (ld & ditems & Hd & Hl & Hk).
  eexists _, _, ld, ditems. split; [reflexivity|]. auto.
Defined.

(** ** [update_class_from_dict]: keys that the object does not have *)

Lemma update_first_entry_Raise modules depth obj ld _ns h entry rest e h' :
  h !! ld = Some (HDict (entry :: rest)) ->
  update_entry modules (update_class_from_dict modules depth) obj _ns entry h
    = Raise e h' ->
  update_class_from_dict modules (S depth) obj (VRef ld) _ns h = Raise e h'.
Proof.
  intros Hld Hentry.
  exact (update_failure_keeps_store modules depth obj ld _ns h [] entry rest h e h'
           Hld eq_refl Hentry).
Qed.

(** X5. A mapping whose first key is no field of the object is refused with
    the [KeyError] that names the namespace path of the key, whatever else the
    object and the mapping hold, and the store is left as it was. *)
Theorem update_unknown_key (modules : string -> option pymodule) (depth : nat)
    (h : heap) (obj : pyval) (ld : loc) (key : string) (value : pyval)
    (rest : list (string * pyval)) (_ns : string) :
  h !! ld = Some (HDict ((key, value) :: rest)) ->
  hasattr h obj key = false ->
  update_class_from_dict modules (S depth) obj (VRef ld) _ns h
  = Raise (KeyError (MsgKeyNotFound (_ns +:+ "/" +:+ key))) h.
Proof.
  intros Hld Hkey. eapply update_first_entry_Raise; [exact Hld|].
  unfold update_entry, bind, get_heap. now rewrite Hkey.
Qed.

Lemma update_unknown_key_witness :
  update_class_from_dict Demo.modules 1 (VRef 0) (VRef 1) ""
    [HInst Demo.Cfg [("a", VInt 1)]; HDict [("nonexistent", VInt 1); ("a", VInt 2)]]
  = Raise (KeyError (MsgKeyNotFound "/nonexistent"))
      [HInst Demo.Cfg [("a", VInt 1)]; HDict [("nonexistent", VInt 1); ("a", VInt 2)]].
Proof.
  exact (update_unknown_key Demo.modules 0
           [HInst Demo.Cfg [("a", VInt 1)];
            HDict [("nonexistent", VInt 1); ("a", VInt 2)]]
           (VRef 0) 1 "nonexistent" (VInt 1) [("a", VInt 2)] "" eq_refl eq_refl).
Defined.

(** X6. The namespace path grows with the nesting: when the mapping binds a
    field that holds a nested object to a mapping whose first key the nested
    object does not have, the [KeyError] names the path of the field followed
    by the key, and the store is left as it was. *)
Theorem update_unknown_nested_key (modules : string -> option pymodule)
    (depth : nat) (h : heap) (lo ld ls : loc) (c : pyclass)
    (attrs rest rest2 : list (string * pyval)) (key k2 : string)
    (cur v2 : pyval) (_ns : string) :
  h !! lo = Some (HInst c attrs) ->
  assoc_get key attrs = Some cur ->
  is_mapping h cur = false ->
  h !! ld = Some (HDict ((key, VRef ls) :: rest)) ->
  h !! ls = Some (HDict ((k2, v2) :: rest2)) ->
  hasattr h cur k2 = false ->
  update_class_from_dict modules (S (S depth)) (VRef lo) (VRef ld) _ns h
  = Raise (KeyError (MsgKeyNotFound ((_ns +:+ "/" +:+ key) +:+ "/" +:+ k2))) h.
Proof.
  intros Hlo Hkey Hmc Hld Hls Hk2. eapply update_first_entry_Raise; [exact Hld|].
  unfold update_entry. unfold bind at 1. unfold get_heap at 1.
  unfold hasattr at 1. rewrite Hlo, Hkey.
  unfold bind at 1. unfold getattr at 1. rewrite Hlo, Hkey, Hmc.
  assert (is_mapping h (VRef ls) = true) as -> by (simpl; now rewrite Hls).
  eapply update_first_entry_Raise; [exact Hls|].
  unfold update_entry, bind, get_heap. now rewrite Hk2.
Qed.

Lemma update_unknown_nested_key_witness :
  update_class_from_dict Demo.modules 2 (VRef 0) (VRef 2) "" Sample.nested_unknown
  = Raise (KeyError (MsgKeyNotFound "/physics/solver")) Sample.nested_unknown.
Proof.
  exact (update_unknown_nested_key Demo.modules 0 Sample.nested_unknown 0 2 3
           Demo.Cfg [("physics", VRef 1)] [] [] "physics" "solver" (VRef 1)
           (VInt 4) "" eq_refl eq_refl eq_refl eq_refl eq_refl eq_refl).
Defined.

(** X7. An empty mapping is taken for any field that does not hold a
    mapping, whatever the field holds, and changes nothing: the merge recurses
    into the value of the field and finds no key to check. *)
Theorem update_empty_mapping_for_field (modules : string -> option pymodule)
    (depth : nat) (h : heap) (lo ld le : loc) (c : pyclass)
    (attrs : list (string * pyval)) (key : string) (cur : pyval)
    (_ns : string) :
  h !! lo = Some (HInst c attrs) ->
  assoc_get key attrs = Some cur ->
  is_mapping h cur = false ->
  h !! ld = Some (HDict [(key, VRef le)]) ->
  h !! le = Some (HDict []) ->
  update_class_from_dict modules (S (S depth)) (VRef lo) (VRef ld) _ns h
  = Ok tt h.
Proof.
  intros Hlo Hkey Hmc Hld Hle.
  rewrite (update_single_entry _ _ _ _ _ _ _ _ Hld).
  unfold update_entry. unfold bind at 1. unfold get_heap at 1.
  unfold hasattr at 1. rewrite Hlo, Hkey.
  unfold bind at 1. unfold getattr at 1. rewrite Hlo, Hkey, Hmc.
  assert (is_mapping h (VRef le) = true) as -> by (simpl; now rewrite Hle).
  rewrite update_class_from_dict_eq. unfold bind, dict_items. now rewrite Hle.
Qed.

Lemma update_empty_mapping_for_field_witness :
  update_class_from_dict Demo.modules 2 (VRef 0) (VRef 1) "" Sample.empty_for_scalar
  = Ok tt Sample.empty_for_scalar.
Proof.
  exact (update_empty_mapping_for_field Demo.modules 0 Sample.empty_for_scalar
           0 1 2 Demo.Cfg [("x", VInt 3)] "x" (VInt 3) ""
           eq_refl eq_refl eq_refl eq_refl eq_refl).
Defined.

(** ** Fields that hold an invocable *)

Lemma split_no_separator sep s : occurrences sep s = 0 -> split sep s = [s].
Proof.
  induction s as [|c s IH]; simpl; [reflexivity|].
  destruct (Ascii.eqb c sep); [discriminate|]. simpl. intros H.
  now rewrite IH.
Qed.

Lemma split_joined sep a b :
  occurrences sep a = 0 ->
  split sep (a +:+ String sep b) = a :: split sep b.
Proof.
  induction a as [|c a IH]; simpl.
  - now rewrite Ascii.eqb_refl.
  - destruct (Ascii.eqb c sep); [discriminate|]. simpl. intros H.
    now rewrite IH.
Qed.

Lemma string_to_callable_resolves modules m n md f h :
  occurrences ":" m = 0 -> occurrences ":" n = 0 ->
  startswith "." m = false -> m <> "" ->
  modules m = Some md -> assoc_get n md = Some f -> callable h f = true ->
  _string_to_callable modules (VStr (m +:+ ":" +:+ n)) h = Ok f h.
Proof.
  intros Hm Hn Hdot Hne Hmod Hattr Hc.
  unfold _string_to_callable, try_except_AttributeError, bind, str_split.
  change (m +:+ ":" +:+ n) with (m +:+ String ":" n).
  rewrite (split_joined _ _ _ Hm), (split_no_separator _ _ Hn).
  unfold import_module. rewrite Hdot.
  apply String.eqb_neq in Hne. rewrite Hne, Hmod.
  unfold ret, module_getattr. rewrite Hattr. unfold ret, get_heap. now rewrite Hc.
Qed.

(** X8. Decoding undoes encoding: for an invocable that the interpreter
    finds under its own name in its own module, [_string_to_callable] applied
    to the ["module:name"] string that [class_to_dict] writes for it returns
    the invocable, provided neither name contains [":"]. *)
Theorem string_to_callable_of_qualified_name
    (modules : string -> option pymodule) (m n : string) (md : pymodule)
    (h : heap) :
  occurrences ":" m = 0 -> occurrences ":" n = 0 ->
  startswith "." m = false -> m <> "" ->
  modules m = Some md -> assoc_get n md = Some (VFunc m n) ->
  exists s,
    qualified_name (VFunc m n) h = Ok s h
    /\ _string_to_callable modules (VStr s) h = Ok (VFunc m n) h.
Proof.
  intros Hm Hn Hdot Hne Hmod Hattr. eexists. split; [reflexivity|].
  eapply string_to_callable_resolves; eauto.
Qed.

Lemma string_to_callable_of_qualified_name_witness :
  exists s,
    qualified_name (VFunc "math" "sin") [] = Ok s []
    /\ _string_to_callable Demo.modules (VStr s) [] = Ok (VFunc "math" "sin") [].
Proof.
  apply (string_to_callable_of_qualified_name Demo.modules "math" "sin"
           [("sin", VFunc "math" "sin"); ("pi", VFloat 0x400921FB54442D18)] []);
    try reflexivity. discriminate.
Defined.

Lemma callable_field_run modules depth h lo ld c attrs key value cur _ns :
  h !! lo = Some (HInst c attrs) ->
  h !! ld = Some (HDict [(key, value)]) ->
  assoc_get key attrs = Some cur ->
  is_mapping h cur = false ->
  is_mapping h value = false ->
  is_iterable h value && negb (is_str value) = false ->
  callable h cur = true ->
  update_class_from_dict modules (S depth) (VRef lo) (VRef ld) _ns h
  = match _string_to_callable modules value h with
    | Ok f _ => Ok tt (<[lo := HInst c (assoc_set key f attrs)]> h)
    | Raise e _ => Raise e h
    end.
Proof.
  intros Hlo Hld Hkey Hmc Hmv Hit Hcc.
  rewrite (update_single_entry _ _ _ _ _ _ _ _ Hld).
  unfold update_entry. unfold bind at 1. unfold get_heap at 1.
  unfold hasattr at 1. rewrite Hlo, Hkey.
  unfold bind at 1. unfold getattr at 1. rewrite Hlo, Hkey, Hmc, Hmv, Hit, Hcc.
  unfold bind at 1.
  destruct (_string_to_callable modules value h) as [f h'|e h'] eqn:Edec.
  - destruct (string_to_callable_Ok _ _ _ _ _ Edec) as (-> & _).
    unfold setattr. now rewrite Hlo.
  - pose proof (string_to_callable_result _ _ _ _ Edec) as Hh. simpl in Hh.
    now subst h'.
Qed.

(** X9. A field that holds an invocable is updated through the decoder:
    for a value that is no mapping and no list or tuple, the merge assigns
    the invocable that [_string_to_callable] returns for the value, and when
    the decoding fails it fails with the same exception and leaves the store
    as it was.  No type check is made against the current invocable. *)
Theorem update_callable_field (modules : string -> option pymodule)
    (depth : nat) (h : heap) (lo ld : loc) (c : pyclass)
    (attrs : list (string * pyval)) (key : string) (value cur : pyval)
    (_ns : string) :
  h !! lo = Some (HInst c attrs) ->
  h !! ld = Some (HDict [(key, value)]) ->
  assoc_get key attrs = Some cur ->
  is_mapping h cur = false ->
  is_mapping h value = false ->
  is_iterable h value && negb (is_str value) = false ->
  callable h cur = true ->
  update_class_from_dict modules (S depth) (VRef lo) (VRef ld) _ns h
  = match _string_to_callable modules value h with
    | Ok f _ => Ok tt (<[lo := HInst c (assoc_set key f attrs)]> h)
    | Raise e _ => Raise e h
    end.
Proof. apply callable_field_run. Qed.

Lemma update_callable_field_witness :
  update_class_from_dict Sample.modules 1 (VRef 0) (VRef 1) ""
    (Sample.callable_field (VStr "math:sin"))
  = Ok tt [HInst Demo.Cfg [("activation", VFunc "math" "sin")];
           HDict [("activation", VStr "math:sin")]]
  /\ update_class_from_dict Sample.modules 1 (VRef 0) (VRef 1) ""
       (Sample.callable_field (VStr "math:tan"))
     = Raise (ValueError (MsgNotInterpreted (VStr "math:tan")
                            (MsgNoAttribute TModule "tan")))
         (Sample.callable_field (VStr "math:tan")).
Proof.
  split.
  - exact (update_callable_field Sample.modules 0
             (Sample.callable_field (VStr "math:sin")) 0 1 Demo.Cfg
             [("activation", VFunc "math" "cos")] "activation" (VStr "math:sin")
             (VFunc "math" "cos") ""
             eq_refl eq_refl eq_refl eq_refl eq_refl eq_refl eq_refl).
  - exact (update_callable_field Sample.modules 0
             (Sample.callable_field (VStr "math:tan")) 0 1 Demo.Cfg
             [("activation", VFunc "math" "cos")] "activation" (VStr "math:tan")
             (VFunc "math" "cos") ""
             eq_refl eq_refl eq_refl eq_refl eq_refl eq_refl eq_refl).
Defined.

(** X10. A field that holds an invocable does not take an invocable: a value
    that is not a string, a mapping, a list or a tuple and has no [split],
    and so an invocable itself, is refused with the [ValueError] of the
    decoder, which found no [split] on it; the store is left as it was. *)
Theorem update_callable_field_not_a_string (modules : string -> option pymodule)
    (depth : nat) (h : heap) (lo ld : loc) (c : pyclass)
    (attrs : list (string * pyval)) (key : string) (value cur : pyval)
    (_ns : string) :
  h !! lo = Some (HInst c attrs) ->
  h !! ld = Some (HDict [(key, value)]) ->
  assoc_get key attrs = Some cur ->
  is_mapping h cur = false ->
  callable h cur = true ->
  is_iterable h value = false ->
  hasattr h value "split" = false ->
  update_class_from_dict modules (S depth) (VRef lo) (VRef ld) _ns h
  = Raise (ValueError (MsgNotInterpreted value
                         (MsgNoAttribute (type_of h value) "split"))) h.
Proof.
  intros Hlo Hld Hkey Hmc Hcc Hit _.
  assert (Hmv : is_mapping h value = false)
    by (destruct value; try discriminate; try reflexivity; exact Hit).
  rewrite (callable_field_run modules depth h lo ld c attrs key value cur _ns);
    auto; [|now rewrite Hit].
  destruct value; try discriminate; reflexivity.
Qed.

Lemma update_callable_field_not_a_string_witness :
  update_class_from_dict Sample.modules 1 (VRef 0) (VRef 1) ""
    (Sample.callable_field (VFunc "math" "sin"))
  = Raise (ValueError (MsgNotInterpreted (VFunc "math" "sin")
                         (MsgNoAttribute TFunction "split")))
      (Sample.callable_field (VFunc "math" "sin")).
Proof.
  exact (update_callable_field_not_a_string Sample.modules 0
           (Sample.callable_field (VFunc "math" "sin")) 0 1 Demo.Cfg
           [("activation", VFunc "math" "cos")] "activation" (VFunc "math" "sin")
           (VFunc "math" "cos") ""
           eq_refl eq_refl eq_refl eq_refl eq_refl eq_refl eq_refl).
Defined.

(** ** [update_class_from_dict] keeps the shape of the store *)

Lemma keys_assoc_set_prefix k v d : keys d `prefix_of` keys (assoc_set k v d).
Proof.
  destruct (decide (k ∈ keys d)) as [Hin|Hout].
  - now rewrite keys_assoc_set_present.
  - rewrite assoc_set_fresh, keys_app by exact Hout. now apply prefix_app_r.
Qed.












Lemma for_each_invariant {A} (I : heap -> Prop) (xs : list A) body :
  (forall x h r, I h -> body x h = r -> I (final_heap r)) ->
  forall h r, I h -> for_each xs body h = r -> I (final_heap r).
Proof.
  intros Hbody. induction xs as [|x xs IH]; intros h r Hh <-; [exact Hh|].
  cbn [for_each]. unfold bind.
  pose proof (Hbody x h _ Hh eq_refl) as Hx.
  destruct (body x h) as [[] h1|e h1]; simpl in Hx; [|exact Hx].
  exact (IH h1 _ Hx eq_refl).
Qed.






(** ** [update_dict] and [dict.update] *)

Lemma is_mapping_insert_dict h l items items' x :
  h !! l = Some (HDict items) ->
  is_mapping (<[l := HDict items']> h) x = is_mapping h x.
Proof.
  intros Hl. destruct x; try reflexivity. simpl.
  destruct (decide (l0 = l)) as [->|Hne].
  - rewrite list_lookup_insert_eq by (eapply lookup_lt_Some; eauto). now rewrite Hl.
  - now rewrite list_lookup_insert_ne by congruence.
Qed.

Lemma is_mapping_app h new x :
  allocated h x -> is_mapping (h ++ new) x = is_mapping h x.
Proof.
  destruct x; try reflexivity. simpl. intros Hl. now rewrite lookup_app_l.
Qed.

Lemma update_dict_flat_loop (rec : pyval -> pyval -> M pyval) lb :
  forall new h items,
  h !! lb = Some (HDict items) ->
  Forall (fun kv => is_mapping h kv.2 = false) new ->
  for_each new (update_dict_entry rec (VRef lb)) h
  = Ok tt (<[lb := HDict (dict_update items new)]> h).
Proof.
  induction new as [|[k v] new IH]; intros h items Hlb Hflat.
  - simpl. now rewrite list_insert_id.
  - apply Forall_cons in Hflat as [Hv Hflat]. simpl in Hv.
    rewrite for_each_cons. unfold bind at 1. unfold update_dict_entry at 1.
    unfold bind at 1. unfold get_heap at 1. rewrite Hv.
    unfold setitem at 1. rewrite Hlb.
    rewrite (IH _ (assoc_set k v items)).
    + now rewrite list_insert_insert_eq.
    + apply list_lookup_insert_eq. eapply lookup_lt_Some; eauto.
    + eapply Forall_impl; [exact Hflat|]. intros [k' v'] Hv'. simpl in *.
      now rewrite (is_mapping_insert_dict h lb items).
Qed.

Lemma update_dict_flat_run depth h lb lo items new :
  h !! lb = Some (HDict items) ->
  h !! lo = Some (HDict new) ->
  Forall (fun kv => is_mapping h kv.2 = false) new ->
  update_dict (S depth) (VRef lb) (VRef lo) h
  = Ok (VRef lb) (<[lb := HDict (dict_update items new)]> h).
Proof.
  intros Hlb Hlo Hflat. rewrite update_dict_eq.
  unfold bind at 1. unfold dict_items. rewrite Hlo.
  unfold bind at 1. now rewrite (update_dict_flat_loop _ lb new h items).
Qed.

Lemma dict_update_get k : forall new items,
  NoDup (keys new) ->
  assoc_get k (dict_update items new)
  = match assoc_get k new with Some v => Some v | None => assoc_get k items end.
Proof.
  induction new as [|[k1 v1] new IH]; intros items Hnd; [reflexivity|].
  simpl in Hnd. apply NoDup_cons in Hnd as [Hk1 Hnd].
  change (dict_update items ((k1, v1) :: new))
    with (dict_update (assoc_set k1 v1 items) new).
  rewrite IH by exact Hnd. simpl.
  destruct (String.eqb k k1) eqn:E.
  - apply String.eqb_eq in E as ->.
    apply assoc_get_None_keys in Hk1. now rewrite Hk1, assoc_get_set_eq.
  - apply String.eqb_neq in E. now rewrite assoc_get_set_ne.
Qed.

Lemma dict_update_prefix : forall new items,
  keys items `prefix_of` keys (dict_update items new).
Proof.
  induction new as [|[k v] new IH]; intros items; [reflexivity|].
  change (dict_update items ((k, v) :: new))
    with (dict_update (assoc_set k v items) new).
  etransitivity; [|apply IH].
  destruct (decide (k ∈ keys items)) as [Hin|Hout].
  - now rewrite keys_assoc_set_present.
  - rewrite assoc_set_fresh, keys_app by exact Hout. now apply prefix_app_r.
Qed.


(** X12. Over an overlay that holds no mapping, [update_dict] is
    [dict.update]: it returns the base itself, changes no other object and
    creates none, and afterwards the base binds every key of the overlay to
    the overlay's value and every other key to what it bound before, the
    keys of the base keeping their places. *)
Theorem update_dict_flat (depth : nat) (h : heap) (lb lo : loc)
    (items new : list (string * pyval)) :
  h !! lb = Some (HDict items) ->
  h !! lo = Some (HDict new) ->
  NoDup (keys new) ->
  Forall (fun kv => is_mapping h kv.2 = false) new ->
  exists items',
    update_dict (S depth) (VRef lb) (VRef lo) h
    = Ok (VRef lb) (<[lb := HDict items']> h)
    /\ keys items `prefix_of` keys items'
    /\ forall k, assoc_get k items'
                 = match assoc_get k new with
                   | Some v => Some v
                   | None => assoc_get k items
                   end.
Proof.
  intros Hlb Hlo Hnd Hflat. exists (dict_update items new). split; [|split].
  - now apply update_dict_flat_run.
  - apply dict_update_prefix.
  - intros k. now apply dict_update_get.
Qed.

Lemma update_dict_flat_witness :
  exists items',
    update_dict 1 (VRef 0) (VRef 1) Sample.flat_overlay
    = Ok (VRef 0) (<[0 := HDict items']> Sample.flat_overlay)
    /\ keys [("a", VInt 1); ("b", VInt 2)] `prefix_of` keys items'
    /\ forall k, assoc_get k items'
                 = match assoc_get k [("b", VInt 3); ("c", VInt 4)] with
                   | Some v => Some v
                   | None => assoc_get k [("a", VInt 1); ("b", VInt 2)]
                   end.
Proof.
  apply (update_dict_flat 0 Sample.flat_overlay 0 1
           [("a", VInt 1); ("b", VInt 2)] [("b", VInt 3); ("c", VInt 4)]);
    [reflexivity|reflexivity| |].
  - apply (NoDup_cons_2 "b" ["c"]).
    + intros Hin. apply list_elem_of_singleton in Hin. discriminate Hin.
    + apply (NoDup_cons_2 "c" []); [apply not_elem_of_nil|apply NoDup_nil_2].
  - apply Forall_cons_2; [reflexivity|].
    apply Forall_cons_2; [reflexivity|apply Forall_nil_2].
Defined.

(** X13. Under a key that the base binds to a mapping, a nested overlay is
    merged into that mapping in place, provided that mapping is neither the
    base nor the overlay (an overlay that is written to while it is iterated
    is another case): the nested mapping of the base gets the entries of the
    nested overlay by [dict.update] and keeps its other entries, the base
    goes on referring to it, and the empty mapping that was created as the
    default of the lookup is left unused at the end of the store. *)
Theorem update_dict_nested_in_place (depth : nat) (h : heap)
    (lb lsub lo ls : loc) (items subitems new : list (string * pyval))
    (k : string) :
  h !! lb = Some (HDict items) ->
  assoc_get k items = Some (VRef lsub) ->
  h !! lsub = Some (HDict subitems) ->
  lsub <> lb ->
  lsub <> lo ->
  h !! lo = Some (HDict [(k, VRef ls)]) ->
  h !! ls = Some (HDict new) ->
  Forall (fun kv => is_mapping h kv.2 = false /\ allocated h kv.2) new ->
  update_dict (S (S depth)) (VRef lb) (VRef lo) h
  = Ok (VRef lb)
       (<[lsub := HDict (dict_update subitems new)]> h ++ [HDict []]).
Proof.
  intros Hlb Hk Hlsub Hne _ Hlo Hls Hflat.
  pose proof (lookup_lt_Some _ _ _ Hlb) as Hlb_lt.
  pose proof (lookup_lt_Some _ _ _ Hlsub) as Hlsub_lt.
  pose proof (lookup_lt_Some _ _ _ Hls) as Hls_lt.
  rewrite update_dict_eq. unfold bind at 1. unfold dict_items. rewrite Hlo.
  unfold bind at 1. cbn [for_each]. unfold bind at 1.
  unfold update_dict_entry at 1. unfold bind at 1. unfold get_heap at 1.
  assert (is_mapping h (VRef ls) = true) as -> by (simpl; now rewrite Hls).
  unfold bind at 1. unfold dict_get_method at 1. rewrite Hlb.
  unfold bind at 1. unfold dict_new at 1.
  unfold bind at 1. unfold dict_get at 1.
  rewrite (lookup_app_l_Some _ _ _ _ Hlb), Hk.
  unfold bind at 1.
  rewrite (update_dict_flat_run depth (h ++ [HDict []]) lsub ls subitems new).
  - unfold setitem. rewrite list_lookup_insert_ne by congruence.
    rewrite (lookup_app_l_Some _ _ _ _ Hlb).
    assert (assoc_set k (VRef lsub) items = items) as ->.
    { clear -Hk. induction items as [|[k' v'] items IH]; simpl in *; [discriminate|].
      destruct (String.eqb k k') eqn:E.
      - apply String.eqb_eq in E as ->. congruence.
      - f_equal. auto. }
    unfold ret. f_equal. rewrite list_insert_id.
    + now rewrite insert_app_l.
    + rewrite list_lookup_insert_ne by congruence.
      now apply lookup_app_l_Some.
  - now apply lookup_app_l_Some.
  - now apply lookup_app_l_Some.
  - eapply Forall_impl; [exact Hflat|]. intros [k' v'] [Hv Ha].
    simpl in *. now rewrite is_mapping_app.
Qed.

Lemma update_dict_nested_in_place_witness :
  update_dict 2 (VRef 0) (VRef 2) Sample.nested_overlay
  = Ok (VRef 0)
       [HDict [("opt", VRef 1)]; HDict [("lr", VInt 5); ("eps", VInt 2)];
        HDict [("opt", VRef 3)]; HDict [("lr", VInt 5)]; HDict []].
Proof.
  apply (update_dict_nested_in_place 0 Sample.nested_overlay 0 1 2 3
           [("opt", VRef 1)] [("lr", VInt 1); ("eps", VInt 2)] [("lr", VInt 5)]
           "opt"); try reflexivity; [discriminate|discriminate|].
  apply Forall_cons_2; [split; [reflexivity|exact I]|apply Forall_nil_2].
Defined.



(** ** [update_dict] takes nothing away *)

Lemma grown_refl o : grown o o.
Proof. destruct o; simpl; eauto. Qed.

Lemma grown_trans o1 o2 o3 : grown o1 o2 -> grown o2 o3 -> grown o1 o3.
Proof.
  destruct o1 as [items|c attrs]; simpl.
  - intros (i2 & -> & P12). simpl. intros (i3 & -> & P23).
    exists i3. split; [reflexivity|]. etransitivity; eauto.
  - intros ->. simpl. auto.
Qed.

Lemma grows_refl h : grows h h.
Proof. split; [lia|]. intros l o Hl. eauto using grown_refl. Qed.

Lemma grows_trans h1 h2 h3 : grows h1 h2 -> grows h2 h3 -> grows h1 h3.
Proof.
  intros [L12 G12] [L23 G23]. split; [lia|]. intros l o Hl.
  destruct (G12 l o Hl) as (o2 & Hl2 & Ho2).
  destruct (G23 l o2 Hl2) as (o3 & Hl3 & Ho3).
  eauto using grown_trans.
Qed.

Lemma grows_app h new : grows h (h ++ new).
Proof.
  split; [rewrite length_app; lia|]. intros l o Hl.
  exists o. split; [now apply lookup_app_l_Some|apply grown_refl].
Qed.

Lemma setitem_grows d k v h r : setitem d k v h = r -> grows h (final_heap r).
Proof.
  intros <-. unfold setitem. destruct d; try apply grows_refl.
  destruct (h !! l) as [[items|c attrs]|] eqn:Hl; try apply grows_refl. simpl.
  split; [now rewrite length_insert|]. intros l' o Hl'.
  destruct (decide (l' = l)) as [->|Hne].
  - rewrite list_lookup_insert_eq by (eapply lookup_lt_Some; eauto).
    eexists. split; [reflexivity|]. rewrite Hl in Hl'. injection Hl' as <-.
    simpl. eexists. split; [reflexivity|]. apply keys_assoc_set_prefix.
  - rewrite list_lookup_insert_ne by congruence. eauto using grown_refl.
Qed.

Lemma update_dict_entry_grows (rec : pyval -> pyval -> M pyval) orig_dict entry :
  (forall o d h r, rec o d h = r -> grows h (final_heap r)) ->
  forall h r, update_dict_entry rec orig_dict entry h = r -> grows h (final_heap r).
Proof.
  intros Hrec h r <-. destruct entry as [keyname value].
  unfold update_dict_entry. unfold bind at 1. unfold get_heap at 1.
  destruct (is_mapping h value); [|now eapply setitem_grows].
  unfold bind at 1.
  destruct (dict_get_method orig_dict h) as [[] h1|e h1] eqn:E1;
    (assert (h1 = h) as ->
       by (revert E1; unfold dict_get_method; destruct orig_dict; try congruence;
           destruct (h !! l) as [[|]|]; congruence));
    [|apply grows_refl].
  unfold bind at 1. unfold dict_new at 1. unfold bind at 1.
  destruct (dict_get orig_dict keyname (VRef (length h)) (h ++ [HDict []]))
    as [sub h2|e h2] eqn:E2;
    (assert (h2 = h ++ [HDict []]) as ->
       by (revert E2; unfold dict_get; destruct orig_dict; try congruence;
           destruct ((h ++ [HDict []]) !! l) as [[|]|]; congruence));
    [|apply grows_app].
  unfold bind at 1.
  pose proof (Hrec sub value (h ++ [HDict []]) _ eq_refl) as Hsub.
  destruct (rec sub value (h ++ [HDict []])) as [merged h3|e h3]; simpl in Hsub.
  - eapply grows_trans; [apply grows_app|].
    eapply grows_trans; [exact Hsub|]. now eapply setitem_grows.
  - eapply grows_trans; [apply grows_app|exact Hsub].
Qed.

Lemma update_dict_grows depth : forall orig_dict new_dict h r,
  update_dict depth orig_dict new_dict h = r -> grows h (final_heap r).
Proof.
  induction depth as [|depth IH]; intros orig_dict new_dict h r <-;
    [apply grows_refl|].
  rewrite update_dict_eq. unfold bind at 1.
  destruct (dict_items new_dict h) as [items h1|e h1] eqn:Eitems;
    (assert (h1 = h) as ->
       by (revert Eitems; unfold dict_items; destruct new_dict; try congruence;
           destruct (h !! l) as [[|]|]; congruence));
    [|apply grows_refl].
  unfold bind at 1.
  pose proof (for_each_invariant (grows h) items
                (update_dict_entry (update_dict depth) orig_dict)) as Hloop.
  specialize (Hloop (fun x h1 r1 H1 E1 =>
                       grows_trans _ _ _ H1
                         (update_dict_entry_grows _ orig_dict x IH h1 r1 E1))
                h _ (grows_refl h) eq_refl).
  destruct (for_each items _ h) as [[] h2|e h2]; exact Hloop.
Qed.

(** X15. [update_dict] takes nothing away, whether it returns or raises:
    the store does not shrink, every class instance is as it was, and every
    dictionary is still a dictionary that has the keys it had, in their
    order, before any key added to it.  When it returns, it returns the base
    it was given. *)
Theorem update_dict_only_grows (depth : nat) (orig_dict new_dict : pyval)
    (h : heap) (r : outcome pyval) :
  update_dict depth orig_dict new_dict h = r ->
  grows h (final_heap r)
  /\ forall d h', r = Ok d h' -> d = orig_dict.
Proof.
  intros Hr. split; [exact (update_dict_grows depth _ _ _ _ Hr)|].
  intros d h' ->. destruct depth as [|depth]; [discriminate|].
  rewrite update_dict_eq in Hr. unfold bind at 1 in Hr.
  destruct (dict_items new_dict h) as [items h1|e h1]; [|discriminate].
  unfold bind at 1 in Hr.
  destruct (for_each items _ h1) as [[] h2|e h2]; [|discriminate].
  unfold ret in Hr. congruence.
Qed.

Lemma update_dict_only_grows_witness :
  grows Sample.nested_overlay
    (final_heap (update_dict 2 (VRef 0) (VRef 2) Sample.nested_overlay))
  /\ forall d h',
       update_dict 2 (VRef 0) (VRef 2) Sample.nested_overlay = Ok d h' ->
       d = VRef 0.
Proof.
  exact (update_dict_only_grows 2 (VRef 0) (VRef 2) Sample.nested_overlay _
           eq_refl).
Defined.

(** ** [print_dict] writes the layout of a value *)

Lemma append_assoc (a b c : string) : (a +:+ b) +:+ c = a +:+ (b +:+ c).
Proof.
  induction a as [|x a IH]; [reflexivity|].
  change (String x ((a +:+ b) +:+ c) = String x (a +:+ (b +:+ c))).
  now f_equal.
Qed.

Lemma append_empty_r (a : string) : a +:+ "" = a.
Proof.
  induction a as [|x a IH]; [reflexivity|].
  change (String x (a +:+ "") = String x a). now f_equal.
Qed.

Lemma render_LDict entries nesting start :
  render (LDict entries) nesting start
  = (if start then "" else newline) +:+ render_entries entries (nesting + 4).
Proof.
  simpl. f_equal. induction entries as [|[k t] rest IH]; simpl; [reflexivity|].
  now rewrite IH.
Qed.

Lemma print_entries str depth h items nesting :
  (forall v t n start out, shows str h v t -> levels t < depth ->
     print_dict str depth h v n start out = (out +:+ render t n start, None)) ->
  NoDup (keys items) ->
  forall todo es done out,
  items = done ++ todo ->
  Forall2 (fun kv kt => kv.1 = kt.1 /\ shows str h kv.2 kt.2) todo es ->
  list_max (map (fun kt => levels kt.2) es) < depth ->
  print_for (keys todo) (fun k out =>
      let out := out +:+ spaces nesting in
      let out := out +:+ k +:+ ": " in
      match assoc_get k items with
      | Some v => print_dict str depth h v nesting false out
      | None => (out, Some (KeyError (MsgMissing k)))
      end) out
  = (out +:+ render_entries es nesting, None).
Proof.
  intros IH Hnd todo es done out Hitems H2. revert done out Hitems.
  induction H2 as [|[k v] [k' t] todo es [Hk Hv] _ IHes];
    intros done out Hitems Hlev.
  - simpl. now rewrite append_empty_r.
  - simpl in Hk, Hv. subst k'. cbn [keys map fst print_for].
    assert (Hkd : k ∉ keys done).
    { rewrite Hitems, keys_app in Hnd. apply NoDup_app in Hnd as (_ & Hdis & _).
      intros Hin. apply (Hdis k Hin). apply list_elem_of_here. }
    rewrite Hitems at 1. rewrite (assoc_get_middle _ _ _ _ Hkd).
    simpl in Hlev.
    rewrite (IH v t) by (exact Hv || lia).
    change (map fst todo) with (keys todo).
    rewrite (IHes (done ++ [(k, v)]))
      by (try rewrite <- app_assoc; (exact Hitems || lia)).
    cbn [render_entries]. f_equal.
    now rewrite !append_assoc.
Qed.

(** X16. [print_dict] writes the layout of the value after the text written
    before it, and raises nothing: a value that is no dictionary is one line,
    its [str] and a newline; a dictionary is one entry after the other, the
    key behind four spaces for each level of nesting, then [": "] and what is
    written for the value, a nested dictionary starting on a new line.  An
    instance of a class is written as one line. *)
Theorem print_dict_renders (str : heap -> pyval -> string) (depth : nat)
    (h : heap) (val : pyval) (t : layout) (nesting : Z) (start : bool)
    (out : string) :
  (forall l items, h !! l = Some (HDict items) -> NoDup (keys items)) ->
  shows str h val t ->
  levels t < depth ->
  print_dict str depth h val nesting start out
  = (out +:+ render t nesting start, None).
Proof.
  intros Hwf. revert val t nesting start out.
  induction depth as [|depth IH]; intros v t n start out Hs Hlev; [lia|].
  inversion Hs as [v' Hv|v' items entries Hv H2]; subst.
  - simpl. now rewrite Hv.
  - cbn [print_dict]. rewrite Hv. cbv zeta.
    assert (Hnd : NoDup (keys items)).
    { destruct v; try discriminate. simpl in Hv.
      destruct (h !! l) as [[items'|]|] eqn:Hl; try discriminate.
      injection Hv as ->. eauto. }
    simpl in Hlev.
    rewrite (print_entries str depth h items (n + 4) IH
               Hnd items entries [] _ eq_refl H2) by lia.
    rewrite render_LDict. f_equal.
    destruct start; simpl; [reflexivity|]. now rewrite append_assoc.
Qed.

Lemma print_dict_renders_witness :
  print_dict Sample.str 3 Sample.nested_text (VRef 0) (-4) true ""
  = ("" +:+ render (LDict [("env", LDict [("num", LLeaf "4")]);
                           ("seed", LLeaf "7")]) (-4) true,
     None).
Proof.
  apply (print_dict_renders Sample.str 3 Sample.nested_text (VRef 0)).
  - intros [|[|l]] items Hl; simpl in Hl; try discriminate;
      injection Hl as <-; apply NoDup_ListNoDup; simpl.
    + constructor; [|constructor; [|constructor]]; simpl; intuition discriminate.
    + constructor; [|constructor]; simpl; intuition discriminate.
  - apply (shows_dict Sample.str Sample.nested_text (VRef 0)
             [("env", VRef 1); ("seed", VInt 7)]); [reflexivity|].
    apply Forall2_cons_2; [split; [reflexivity|]|].
    + apply (shows_dict Sample.str Sample.nested_text (VRef 1) [("num", VInt 4)]);
        [reflexivity|].
      apply Forall2_cons_2; [split; [reflexivity|]|apply Forall2_nil_2].
      exact (shows_leaf Sample.str Sample.nested_text (VInt 4) eq_refl).
    + apply Forall2_cons_2; [split; [reflexivity|]|apply Forall2_nil_2].
      exact (shows_leaf Sample.str Sample.nested_text (VInt 7) eq_refl).
  - simpl. lia.
Defined.

(** X17. A dictionary that holds itself under its first key is never written
    out: whatever the recursion limit, [print_dict] ends with
    [RecursionError], after the text it had written on the way. *)
Theorem print_dict_self_reference (str : heap -> pyval -> string)
    (depth : nat) (h : heap) (l : loc) (k : string)
    (rest : list (string * pyval)) (nesting : Z) (start : bool) (out : string) :
  h !! l = Some (HDict ((k, VRef l) :: rest)) ->
  exists out',
    print_dict str depth h (VRef l) nesting start out
    = (out', Some RecursionError).
Proof.
  intros Hl. revert nesting start out.
  induction depth as [|depth IH]; intros nesting start out; [simpl; eauto|].
  cbn [print_dict as_dict]. rewrite Hl. cbv zeta.
  cbn [keys map fst print_for assoc_get]. rewrite String.eqb_refl.
  edestruct IH as [out' ->]. eauto.
Qed.

Lemma print_dict_self_reference_witness :
  exists out',
    print_dict Sample.str 1000 Sample.self_mapping (VRef 0) (-4) true ""
    = (out', Some RecursionError).
Proof.
  exact (print_dict_self_reference Sample.str 1000 Sample.self_mapping 0 "me" []
           (-4) true "" eq_refl).
Defined.

(** ** [Timer] *)

Section TimerProperties.

Variable time : Type.
Variable sub : time -> time -> time.
Variable fmt : time -> string.

(** X18. A timer is either running or not: a sequence of calls of [start]
    and [stop] goes through without [TimerError] exactly when the calls
    alternate, beginning with [stop] if the timer is running and with
    [start] if it is not. *)
Theorem timer_calls_alternate (cs : list (timer.call time))
    (self : timer.Timer time) :
  (exists self', timer.calls time sub cs self = timer.Returned self')
  <-> timer.alternate time (timer.running time self) cs = true.
Proof.
  revert self. induction cs as [|c cs IH]; intros self.
  - simpl. split; eauto.
  - destruct self as [msg [started|] stopped elapsed], c as [now|now];
      cbn [timer.calls timer.start timer.stop timer.alternate timer.running
           timer._start_time timer._msg timer._stop_time timer._elapsed_time
           negb andb].
    + split; [intros [? ?]; discriminate|discriminate].
    + rewrite IH. reflexivity.
    + rewrite IH. reflexivity.
    + split; [intros [? ?]; discriminate|discriminate].
Qed.

(** X19. What [total_run_time] gives is the last interval: after [start] at
    [t0] and [stop] at [t1] on a timer that was not running it is
    [t1 - t0], whatever the timer had measured before; it stays so when the
    timer is started again; and once the timer is stopped, [time_elapsed]
    and [str] raise [TypeError] at every reading. *)
Theorem timer_last_interval (self : timer.Timer time) (t0 t1 : time) :
  timer.running time self = false ->
  exists started stopped,
    timer.start time self t0 = timer.Returned started
    /\ timer.stop time sub started t1 = timer.Returned stopped
    /\ timer.total_run_time time stopped = Some (sub t1 t0)
    /\ (forall now, timer.time_elapsed time sub started now
                    = timer.Returned (sub now t0))
    /\ (forall now, timer.time_elapsed time sub stopped now
                    = timer.Raised timer.TypeError)
    /\ (forall now, timer.__str__ time sub fmt stopped now
                    = timer.Raised timer.TypeError)
    /\ (forall t2, exists again,
          timer.start time stopped t2 = timer.Returned again
          /\ timer.total_run_time time again = Some (sub t1 t0)).
Proof.
  destruct self as [msg [started|] stopped elapsed]; [discriminate|].
  intros _. do 2 eexists. split; [reflexivity|]. split; [reflexivity|].
  repeat split. intros t2. eexists. split; reflexivity.
Qed.

(** X20. As a context manager a timer that was not running writes one line
    when the block ends, if it has a message: the message, a space, [": "],
    the time between entering and leaving with six decimals, and
    [" seconds"]; without a message it writes nothing.  Entering a timer
    that is running, as a block nested in its own block does, raises
    [TimerError]. *)
Theorem timer_context_manager (msg : option string) (self : timer.Timer time)
    (t0 t1 : time) (out : string) :
  timer.running time self = false ->
  timer._msg time self = msg ->
  exists entered left,
    timer.__enter__ time self t0 = timer.Returned entered
    /\ timer.__exit__ time sub fmt entered t1 out
       = timer.Returned
           (left,
            match msg with
            | Some m => out +:+ m +:+ " " +:+ ": " +:+ fmt (sub t1 t0)
                            +:+ " seconds" +:+ newline
            | None => out
            end)
    /\ timer.total_run_time time left = Some (sub t1 t0)
    /\ timer.running time left = false
    /\ forall t, exists why,
         timer.__enter__ time entered t = timer.Raised (timer.TimerError why).
Proof.
  destruct self as [msg' [started|] stopped elapsed]; [discriminate|].
  intros _ Hmsg. simpl in Hmsg. subst msg'.
  do 2 eexists. split; [reflexivity|]. split.
  - unfold timer.__exit__. cbn. destruct msg; reflexivity.
  - repeat split. intros t. eexists. reflexivity.
Qed.

End TimerProperties.

Lemma timer_last_interval_witness :
  exists started stopped,
    timer.start Z (timer.__init__ Z None) 10%Z = timer.Returned started
    /\ timer.stop Z Z.sub started 25%Z = timer.Returned stopped
    /\ timer.total_run_time Z stopped = Some (25 - 10)%Z
    /\ (forall now, timer.time_elapsed Z Z.sub started now
                    = timer.Returned (now - 10)%Z)
    /\ (forall now, timer.time_elapsed Z Z.sub stopped now
                    = timer.Raised timer.TypeError)
    /\ (forall now, timer.__str__ Z Z.sub (fun _ => "15.000000") stopped now
                    = timer.Raised timer.TypeError)
    /\ (forall t2, exists again,
          timer.start Z stopped t2 = timer.Returned again
          /\ timer.total_run_time Z again = Some (25 - 10)%Z).
Proof.
  exact (timer_last_interval Z Z.sub (fun _ => "15.000000")
           (timer.__init__ Z None) 10%Z 25%Z eq_refl).
Defined.

Lemma timer_context_manager_witness :
  exists entered left,
    timer.__enter__ Z (timer.__init__ Z (Some "step")) 10%Z
    = timer.Returned entered
    /\ timer.__exit__ Z Z.sub (fun _ => "15.000000") entered 25%Z ""
       = timer.Returned
           (left, "" +:+ "step" +:+ " " +:+ ": " +:+ "15.000000"
                     +:+ " seconds" +:+ newline)
    /\ timer.total_run_time Z left = Some (25 - 10)%Z
    /\ timer.running Z left = false
    /\ forall t, exists why,
         timer.__enter__ Z entered t = timer.Raised (timer.TimerError why).
Proof.
  exact (timer_context_manager Z Z.sub (fun _ => "15.000000") (Some "step")
           (timer.__init__ Z (Some "step")) 10%Z 25%Z "" eq_refl eq_refl).
Defined.
